(** * hawiah-local: the JSON and YAML file drivers

    A shallow embedding of the four driver classes of the repository and
    the properties of the driver abstraction they implement: the predicate
    matcher, the record store operations, the connect/disconnect gate and
    the persistence policy.

    - [JSONDriver1]: [src/drivers/JSONDriver.ts], the first class of the
      file ([records], [autoSave], no connection state);
    - [JSONDriver2]: [src/drivers/JSONDriver.ts], the second class of the
      file ([data], [isConnected], a save after every mutation);
    - [YAMLDriver1]: [src/drivers/YAMLDriver.ts] ([autoSave] option);
    - [YAMLDriver2]: [unnamed/part_000], the [YAMLDriver] without the
      option.

    A method is a function from the state of the instance and of the world
    around it (backing file, writer, clock, source of identifiers) to a
    returned value or a thrown error and the state it leaves. *)

From Stdlib Require Import List String Ascii ZArith Bool Lia Arith.
From Stdlib Require Import Permutation.
From Stdlib Require Import DecimalString DecimalZ Decimal.
Import ListNotations.
Local Open Scope string_scope.
Local Open Scope list_scope.

(* ================================================================== *)
(** * Values *)

(** A JavaScript value as it is decoded from a snapshot or handed in by a
    client: [null], a boolean, a number, a string, an array or a plain
    object.  The numbers of the model are the integers: fractions, [NaN]
    and the infinities are outside it, and so is [undefined] as a value
    held in an array or a property.  An object is the sequence of its own
    enumerable properties in enumeration order, which is the order
    [Object.keys], the spread syntax and [JSON.stringify] all follow. *)
#[warnings="-register-all"]
Inductive Value : Type :=
| VNull
| VBool (b : bool)
| VNum (n : Z)
| VStr (s : string)
| VList (l : list Value)
| VMap (m : list (string * Value)).

(** [Data] and [Query] of [interfaces/IDriver]: plain objects. *)
Definition Data := list (string * Value).
Definition Query := list (string * Value).

(* ================================================================== *)
(** * Plain objects *)

(** The own property [k] of [o]; [None] when [o] has no such property of
    its own.  For a key that [Object.prototype] does not define, which the
    system fields and [records] are, this is the property read [o[k]], with
    [None] for [undefined]; the read of an arbitrary key is [js_get]
    below. *)
Fixpoint obj_get (o : Data) (k : string) : option Value :=
  match o with
  | [] => None
  | (k', v) :: o' => if String.eqb k' k then Some v else obj_get o' k
  end.

(** [o[k] = v] on an object under construction: an existing property keeps
    its place and takes the new value, a new one goes last. *)
Fixpoint obj_set (o : Data) (k : string) (v : Value) : Data :=
  match o with
  | [] => [(k, v)]
  | (k', v') :: o' =>
      if String.eqb k' k then (k, v) :: o' else (k', v') :: obj_set o' k v
  end.

(** Removal of a property.  A property assigned [undefined] reads back as
    [undefined] and is skipped by [JSON.stringify], like a property that is
    not there: the model keeps no such property. *)
Fixpoint obj_del (o : Data) (k : string) : Data :=
  match o with
  | [] => []
  | (k', v') :: o' =>
      if String.eqb k' k then obj_del o' k else (k', v') :: obj_del o' k
  end.

(** [k: e] in an object literal, where [e] may evaluate to [undefined]. *)
Definition obj_put (o : Data) (k : string) (v : option Value) : Data :=
  match v with
  | Some x => obj_set o k x
  | None => obj_del o k
  end.

(** [{ ...o, ...src }]: the properties of [src] are assigned in order. *)
Definition spread (o src : Data) : Data :=
  fold_left (fun acc kv => obj_set acc (fst kv) (snd kv)) src o.

(** An object has each key once. *)
Definition wf_obj (o : Data) : Prop := NoDup (map fst o).

(** JavaScript truthiness, for [a || b]. *)
Definition truthy (v : option Value) : bool :=
  match v with
  | None => false
  | Some VNull => false
  | Some (VBool b) => b
  | Some (VNum n) => negb (Z.eqb n 0)
  | Some (VStr s) => negb (String.eqb s EmptyString)
  | Some (VList _) => true
  | Some (VMap _) => true
  end.

(** What a property read [o[k]] evaluates to.  A plain object, as an
    object literal, the spread syntax, [JSON.parse] and the YAML decoder
    build it, has [Object.prototype] as its prototype, and a key it does not
    own is looked up there: [__proto__] is an accessor that returns the
    prototype of the object read, the other properties of
    [Object.prototype] are functions, and any other key is [undefined]. *)
Inductive Read : Type :=
| Has (v : Value)      (* a value held by the object *)
| ObjectPrototype      (* the object [Object.prototype] *)
| Function             (* a method inherited from [Object.prototype] *)
| Undefined.

(** The function-valued properties of [Object.prototype]. *)
Definition prototype_methods : list string :=
  [ "constructor"; "hasOwnProperty"; "isPrototypeOf"; "propertyIsEnumerable";
    "toLocaleString"; "toString"; "valueOf";
    "__defineGetter__"; "__defineSetter__";
    "__lookupGetter__"; "__lookupSetter__" ].

Definition is_prototype_method (k : string) : bool :=
  existsb (String.eqb k) prototype_methods.

(** [Object.prototype[k]]: its prototype is [null]. *)
Definition proto_get (k : string) : Read :=
  if String.eqb k "__proto__" then Has VNull
  else if is_prototype_method k then Function
  else Undefined.

(** [o[k]] on a plain object. *)
Definition js_get (o : Data) (k : string) : Read :=
  match obj_get o k with
  | Some v => Has v
  | None =>
      if String.eqb k "__proto__" then ObjectPrototype
      else if is_prototype_method k then Function
      else Undefined
  end.

(** [typeof x === 'object' && x !== null && !Array.isArray(x)]: the object
    that [x] is, as the reader of its properties. *)
Definition as_object (x : Read) : option (string -> Read) :=
  match x with
  | Has (VMap r) => Some (js_get r)
  | ObjectPrototype => Some proto_get
  | _ => None
  end.

(** The value a read yields, if it is one that a snapshot can hold. *)
Definition own (x : Read) : option Value :=
  match x with
  | Has v => Some v
  | _ => None
  end.

(** [a === b] where [b] is a value of a query: equal primitives of the same
    type.  Two arrays or two objects are equal under [===] only when they
    are one and the same object, which a value reached from a record and a
    value built by the caller never are. *)
Definition strict_eq (a : Read) (b : Value) : bool :=
  match a, b with
  | Has VNull, VNull => true
  | Has (VBool x), VBool y => Bool.eqb x y
  | Has (VNum x), VNum y => Z.eqb x y
  | Has (VStr x), VStr y => String.eqb x y
  | _, _ => false
  end.

(* ================================================================== *)
(** * [JSON.stringify] *)

Definition dquote : ascii := ascii_of_nat 34.
Definition bslash : ascii := ascii_of_nat 92.

Definition hex_digit (n : N) : ascii :=
  ascii_of_N (if (n <? 10)%N then 48 + n else 87 + n)%N.

Definition esc2 (c : ascii) : string := String bslash (String c EmptyString).

(** The escape of one character inside a string literal: the quote, the
    backslash, the five short control escapes, and [\u00xx] for the other
    control characters; every other character stands for itself. *)
Definition escape_char (c : ascii) : string :=
  match N_of_ascii c with
  | 34%N => esc2 dquote
  | 92%N => esc2 bslash
  | 8%N => esc2 "b"
  | 12%N => esc2 "f"
  | 10%N => esc2 "n"
  | 13%N => esc2 "r"
  | 9%N => esc2 "t"
  | n =>
      if (n <? 32)%N
      then String bslash
             (String "u" (String "0" (String "0"
                (String (hex_digit (n / 16)) (String (hex_digit (n mod 16))
                   EmptyString)))))
      else String c EmptyString
  end.

Fixpoint escape (s : string) : string :=
  match s with
  | EmptyString => EmptyString
  | String c s' => (escape_char c ++ escape s')%string
  end.

Definition quote_string (s : string) : string :=
  String dquote (escape s ++ String dquote EmptyString)%string.

Definition string_of_Z (n : Z) : string :=
  NilZero.string_of_int (Z.to_int n).

(** [JSON.stringify(v)] without indentation. *)
Fixpoint JSON_stringify (v : Value) : string :=
  (match v with
  | VNull => "null"
  | VBool true => "true"
  | VBool false => "false"
  | VNum n => string_of_Z n
  | VStr s => quote_string s
  | VList [] => "[]"
  | VList (x :: l) =>
      "[" ++ JSON_stringify x ++
      (fix rest (l : list Value) : string :=
         match l with
         | [] => "]"
         | y :: l' => "," ++ JSON_stringify y ++ rest l'
         end) l
  | VMap [] => "{}"
  | VMap ((k, x) :: m) =>
      "{" ++ quote_string k ++ ":" ++ JSON_stringify x ++
      (fix rest (m : list (string * Value)) : string :=
         match m with
         | [] => "}"
         | (k', y) :: m' =>
             "," ++ quote_string k' ++ ":" ++ JSON_stringify y ++ rest m'
         end) m
  end)%string.

(** [JSON.stringify(e)] where [e] may be [undefined], which has no text. *)
Definition JSON_stringify_opt (v : option Value) : option string :=
  option_map JSON_stringify v.

Definition opt_string_eqb (a b : option string) : bool :=
  match a, b with
  | Some x, Some y => String.eqb x y
  | None, None => true
  | _, _ => false
  end.

(* ================================================================== *)
(** * The predicate matchers *)

(** [JSON.stringify(o[k])]: [Object.prototype] has no enumerable property
    of its own, a function and [undefined] have no text. *)
Definition JSON_stringify_read (x : Read) : option string :=
  match x with
  | Has v => Some (JSON_stringify v)
  | ObjectPrototype => Some "{}"
  | Function => None
  | Undefined => None
  end.

(** [JSONDriver.matches] (first revision) and [JSONDriver.matchesQuery]
    (second revision) have the same body.  [matches_key] is the callback of
    [Object.keys(query).every], at the values [record[key]] and
    [query[key]]; the recursive call [this.matches(recordValue, queryValue)]
    is its inner loop, over the properties read from [recordValue]. *)
Fixpoint matches_key (recordValue : Read) (queryValue : Value)
  {struct queryValue} : bool :=
  match queryValue with
  | VMap q =>
      match as_object recordValue with
      | Some read =>
          match q with
          | [] => true
          | _ =>
              (fix every (q : list (string * Value)) : bool :=
                 match q with
                 | [] => true
                 | (key, qv) :: q' => matches_key (read key) qv && every q'
                 end) q
          end
      | None => false
      end
  | VList _ =>
      match recordValue with
      | Has (VList rl) =>
          String.eqb (JSON_stringify queryValue) (JSON_stringify (VList rl))
      | _ => strict_eq recordValue queryValue
      end
  | _ => strict_eq recordValue queryValue
  end.

Definition matches (record : Data) (query : Query) : bool :=
  match query with
  | [] => true
  | _ =>
      forallb (fun kv => matches_key (js_get record (fst kv)) (snd kv)) query
  end.

(** [YAMLDriver.matchesQuery], the same in both revisions. *)
Fixpoint matchesQuery (record : Data) (query : Query) : bool :=
  match query with
  | [] => true
  | (key, value) :: query' =>
      if negb (opt_string_eqb (JSON_stringify_read (js_get record key))
                 (JSON_stringify_opt (Some value)))
      then false
      else matchesQuery record query'
  end.

(* ================================================================== *)
(** * Errors, results and the world outside a driver *)

Inductive Error : Type :=
| NotConnected   (* Error('Driver not connected. Call connect() first.') *)
| ParseError     (* the decoder rejects the file's text *)
| TypeError      (* a property read on [null] *)
| IOError.       (* the writer fails *)

(** The outcome of a method call: its value or the error thrown, and the
    state the instance and the world are left in either way. *)
Inductive Result (S A : Type) : Type :=
| Ok (a : A) (s : S)
| Throw (e : Error) (s : S).
Arguments Ok {S A} a s.
Arguments Throw {S A} e s.

Definition M (S A : Type) : Type := S -> Result S A.

Definition ret {S A} (a : A) : M S A := fun s => Ok a s.

Definition bind {S A B} (m : M S A) (k : A -> M S B) : M S B :=
  fun s =>
    match m s with
    | Ok a s' => k a s'
    | Throw e s' => Throw e s'
    end.

Definition throw {S A} (e : Error) : M S A := fun s => Throw e s.
Definition gets {S A} (f : S -> A) : M S A := fun s => Ok (f s) s.
Definition modify {S} (f : S -> S) : M S unit := fun s => Ok tt (f s).
Definition when {S} (b : bool) (m : M S unit) : M S unit :=
  if b then m else ret tt.

Declare Scope driver_scope.
Delimit Scope driver_scope with driver.
Notation "x <- m ;; k" := (bind m (fun x => k))
  (at level 61, m at next level, right associativity) : driver_scope.
Notation "m ;; k" := (bind m (fun _ => k))
  (at level 61, right associativity) : driver_scope.
Local Open Scope driver_scope.

(** What the backing file holds, seen through the decoder ([JSON.parse],
    [yaml.load]): no file, a text the decoder rejects, or a text that
    decodes to a value. *)
Inductive File : Type :=
| Absent
| Malformed
| Holds (parsed : Value).

(** The text a collection is encoded to decodes to the array of its
    records. *)
Definition encode (c : list Data) : File := Holds (VList (map VMap c)).

(** The world a driver instance runs in: the backing file, whether the
    atomic writer succeeds, the snapshots handed to it so far, the clock
    ([clock k] is the text of the [k]-th [new Date().toISOString()]) and
    the source of identifiers ([ids k] is the [k]-th [generateId()]). *)
Record World : Type := mkWorld {
  file : File;
  writable : bool;
  written : list (list Data);
  clock : nat -> string;
  ticks : nat;
  ids : nat -> string;
  drawn : nat
}.

Definition newDate : M World string :=
  fun w =>
    Ok (clock w (ticks w))
       (mkWorld (file w) (writable w) (written w) (clock w) (S (ticks w))
          (ids w) (drawn w)).

Definition generateId : M World string :=
  fun w =>
    Ok (ids w (drawn w))
       (mkWorld (file w) (writable w) (written w) (clock w) (ticks w)
          (ids w) (S (drawn w))).

(** [writer.write(content)] with the content encoding [c]. *)
Definition write (c : list Data) : M World unit :=
  fun w =>
    if writable w
    then Ok tt (mkWorld (encode c) (writable w) (written w ++ [c]) (clock w)
                  (ticks w) (ids w) (drawn w))
    else Throw IOError w.

(** [fs.unlink] of the backing file. *)
Definition unlink : M World unit :=
  fun w =>
    Ok tt (mkWorld Absent (writable w) (written w) (clock w) (ticks w)
             (ids w) (drawn w)).

(** An element of a decoded array at its declared type [Data]; an element
    that is not an object has no field of its own. *)
Definition asData (v : Value) : Data :=
  match v with
  | VMap m => m
  | _ => []
  end.

(** [Array.isArray(parsed) ? parsed : []]. *)
Definition array_or_empty (parsed : Value) : list Data :=
  match parsed with
  | VList l => map asData l
  | _ => []
  end.

(** The shapes [JSONDriver.connect] accepts: an array, or an object whose
    [records] property is truthy and of type ['object'], of which
    [Object.values] is taken; anything else is the empty collection, and
    reading [records] off [null] throws. *)
Definition json_shape (parsed : Value) : Error + list Data :=
  match parsed with
  | VList l => inr (map asData l)
  | VNull => inl TypeError
  | VMap m =>
      match obj_get m "records" with
      | Some (VMap rs) => inr (map (fun kv => asData (snd kv)) rs)
      | Some (VList rs) => inr (map asData rs)
      | _ => inr []
      end
  | _ => inr []
  end.

(** ** The loops of [update] *)

(** [this.records.map(record => this.matches(record, query) ? merged :
    record)] of [JSONDriver.update], and the [for] loop of
    [YAMLDriver.update]: every matching record is replaced by [merge]
    applied to it and to a reading of the clock taken for it; the count of
    replaced records is returned with the new array. *)
Fixpoint update_loop (matcher : Data -> bool) (merge : Data -> string -> Data)
    (rs : list Data) : M World (list Data * nat) :=
  match rs with
  | [] => ret ([], 0)
  | record :: rs' =>
      if matcher record then
        now <- newDate ;;
        out <- update_loop matcher merge rs' ;;
        ret (merge record now :: fst out, S (snd out))
      else
        out <- update_loop matcher merge rs' ;;
        ret (record :: fst out, snd out)
  end.

(** [{ ...record, ...data, _updatedAt: now }]. *)
Definition json_merge (data record : Data) (now : string) : Data :=
  obj_set (spread (spread [] record) data) "_updatedAt" (VStr now).

(** [{ ...record, ...data, _id: record._id, _createdAt: record._createdAt,
      _updatedAt: now }]. *)
Definition yaml_merge (data record : Data) (now : string) : Data :=
  obj_set
    (obj_put
       (obj_put (spread (spread [] record) data) "_id" (obj_get record "_id"))
       "_createdAt" (obj_get record "_createdAt"))
    "_updatedAt" (VStr now).

(* ================================================================== *)
(** * [JSONDriver], first revision: [records] and [autoSave], no gate *)

Module JSONDriver1.

Record State : Type := mkState {
  records : list Data;
  autoSave : bool;
  world : World
}.

(** [new JSONDriver(filePath, autoSave)]. *)
Definition create (autoSave : bool) (w : World) : State :=
  mkState [] autoSave w.

Definition io {A} (m : M World A) : M State A :=
  fun s =>
    match m (world s) with
    | Ok a w => Ok a (mkState (records s) (autoSave s) w)
    | Throw e w => Throw e (mkState (records s) (autoSave s) w)
    end.

Definition set_records (rs : list Data) : M State unit :=
  modify (fun s => mkState rs (autoSave s) (world s)).

Definition persist : M State unit :=
  rs <- gets records ;; io (write rs).

Definition connect : M State unit :=
  f <- gets (fun s => file (world s)) ;;
  match f with
  | Holds parsed =>
      match json_shape parsed with
      | inr rs => set_records rs
      | inl e => throw e
      end
  | Malformed => throw ParseError
  | Absent =>
      set_records [] ;;
      a <- gets autoSave ;;
      when a persist
  end.

Definition disconnect : M State unit :=
  persist ;; set_records [].

Definition set (data : Data) : M State Data :=
  createdAt <- io newDate ;;
  updatedAt <- io newDate ;;
  let record :=
    obj_set (obj_set (spread [] data) "_createdAt" (VStr createdAt))
      "_updatedAt" (VStr updatedAt) in
  rs <- gets records ;;
  set_records (rs ++ [record]) ;;
  a <- gets autoSave ;;
  when a persist ;;
  ret record.

Definition get (query : Query) : M State (list Data) :=
  rs <- gets records ;;
  ret (filter (fun record => matches record query) rs).

Definition getOne (query : Query) : M State (option Data) :=
  rs <- gets records ;;
  ret (find (fun record => matches record query) rs).

Definition update (query : Query) (data : Data) : M State nat :=
  rs <- gets records ;;
  out <- io (update_loop (fun record => matches record query)
               (json_merge data) rs) ;;
  set_records (fst out) ;;
  a <- gets autoSave ;;
  when ((0 <? snd out)%nat && a) persist ;;
  ret (snd out).

Definition delete (query : Query) : M State nat :=
  rs <- gets records ;;
  let initialLength := List.length rs in
  set_records (filter (fun record => negb (matches record query)) rs) ;;
  rs' <- gets records ;;
  let count := initialLength - List.length rs' in
  a <- gets autoSave ;;
  when ((0 <? count)%nat && a) persist ;;
  ret count.

Definition exists_ (query : Query) : M State bool :=
  rs <- gets records ;;
  ret (existsb (fun record => matches record query) rs).

Definition count (query : Query) : M State nat :=
  rs <- gets records ;;
  ret (List.length (filter (fun record => matches record query) rs)).

Definition flush : M State unit := persist.

Definition clear : M State unit :=
  set_records [] ;;
  a <- gets autoSave ;;
  when a persist.

Definition getRecordCount (s : State) : nat := List.length (records s).

(** [compact()]: for this driver, a save when [autoSave] is on. *)
Definition compact : M State unit :=
  a <- gets autoSave ;;
  when a persist.

End JSONDriver1.

(* ================================================================== *)
(** * [JSONDriver], second revision: [data] behind [isConnected] *)

Module JSONDriver2.

Record State : Type := mkState {
  data : list Data;
  isConnected : bool;
  world : World
}.

(** [new JSONDriver(filePath)]. *)
Definition create (w : World) : State := mkState [] false w.

Definition io {A} (m : M World A) : M State A :=
  fun s =>
    match m (world s) with
    | Ok a w => Ok a (mkState (data s) (isConnected s) w)
    | Throw e w => Throw e (mkState (data s) (isConnected s) w)
    end.

Definition set_data (rs : list Data) : M State unit :=
  modify (fun s => mkState rs (isConnected s) (world s)).

Definition set_isConnected (b : bool) : M State unit :=
  modify (fun s => mkState (data s) b (world s)).

Definition ensureConnected : M State unit :=
  c <- gets isConnected ;;
  if c then ret tt else throw NotConnected.

Definition saveToFile : M State unit :=
  rs <- gets data ;; io (write rs).

Definition connect : M State unit :=
  f <- gets (fun s => file (world s)) ;;
  match f with
  | Holds parsed =>
      match json_shape parsed with
      | inr rs => set_data rs
      | inl e => throw e
      end
  | Malformed => throw ParseError
  | Absent => set_data [] ;; saveToFile
  end ;;
  set_isConnected true.

Definition disconnect : M State unit :=
  set_isConnected false.

Definition set (d : Data) : M State Data :=
  ensureConnected ;;
  id <- (if truthy (obj_get d "_id")
         then ret (obj_get d "_id")
         else g <- io generateId ;; ret (Some (VStr g))) ;;
  createdAt <- io newDate ;;
  updatedAt <- io newDate ;;
  let record :=
    obj_set
      (obj_set (obj_put (spread [] d) "_id" id)
         "_createdAt" (VStr createdAt))
      "_updatedAt" (VStr updatedAt) in
  rs <- gets data ;;
  set_data (rs ++ [record]) ;;
  saveToFile ;;
  ret record.

Definition get (query : Query) : M State (list Data) :=
  ensureConnected ;;
  rs <- gets data ;;
  match query with
  | [] => ret rs
  | _ => ret (filter (fun record => matches record query) rs)
  end.

Definition getOne (query : Query) : M State (option Data) :=
  ensureConnected ;;
  rs <- gets data ;;
  ret (find (fun record => matches record query) rs).

Definition update (query : Query) (d : Data) : M State nat :=
  ensureConnected ;;
  rs <- gets data ;;
  out <- io (update_loop (fun record => matches record query)
               (json_merge d) rs) ;;
  set_data (fst out) ;;
  when (0 <? snd out)%nat saveToFile ;;
  ret (snd out).

Definition delete (query : Query) : M State nat :=
  ensureConnected ;;
  rs <- gets data ;;
  let initialLength := List.length rs in
  set_data (filter (fun record => negb (matches record query)) rs) ;;
  rs' <- gets data ;;
  let count := initialLength - List.length rs' in
  when (0 <? count)%nat saveToFile ;;
  ret count.

Definition exists_ (query : Query) : M State bool :=
  ensureConnected ;;
  rs <- gets data ;;
  ret (existsb (fun record => matches record query) rs).

Definition count (query : Query) : M State nat :=
  ensureConnected ;;
  rs <- gets data ;;
  match query with
  | [] => ret (List.length rs)
  | _ => ret (List.length (filter (fun record => matches record query) rs))
  end.

Definition save : M State unit :=
  ensureConnected ;; saveToFile.

Definition clear : M State unit :=
  ensureConnected ;; set_data [] ;; saveToFile.

Definition drop : M State unit :=
  ensureConnected ;; io unlink ;; set_data [].

Definition reload : M State unit :=
  ensureConnected ;;
  f <- gets (fun s => file (world s)) ;;
  match f with
  | Holds parsed => set_data (array_or_empty parsed)
  | Malformed => throw ParseError
  | Absent => set_data []
  end.

Definition getAllData (s : State) : list Data := data s.

End JSONDriver2.

(* ================================================================== *)
(** * [YAMLDriver] with the [autoSave] option *)

Module YAMLDriver1.

Record State : Type := mkState {
  autoSave : bool;
  data : list Data;
  isConnected : bool;
  world : World
}.

(** [new YAMLDriver(options)]: [autoSave] is on unless it is given. *)
Definition create (autoSave : option bool) (w : World) : State :=
  mkState (match autoSave with Some b => b | None => true end) [] false w.

Definition io {A} (m : M World A) : M State A :=
  fun s =>
    match m (world s) with
    | Ok a w => Ok a (mkState (autoSave s) (data s) (isConnected s) w)
    | Throw e w => Throw e (mkState (autoSave s) (data s) (isConnected s) w)
    end.

Definition set_data (rs : list Data) : M State unit :=
  modify (fun s => mkState (autoSave s) rs (isConnected s) (world s)).

Definition set_isConnected (b : bool) : M State unit :=
  modify (fun s => mkState (autoSave s) (data s) b (world s)).

Definition ensureConnected : M State unit :=
  c <- gets isConnected ;;
  if c then ret tt else throw NotConnected.

Definition saveToFile : M State unit :=
  rs <- gets data ;; io (write rs).

Definition connect : M State unit :=
  f <- gets (fun s => file (world s)) ;;
  match f with
  | Holds parsed => set_data (array_or_empty parsed)
  | Malformed => set_data []
  | Absent => set_data [] ;; saveToFile
  end ;;
  set_isConnected true.

Definition disconnect : M State unit :=
  a <- gets autoSave ;;
  when a saveToFile ;;
  set_isConnected false.

Definition set (d : Data) : M State Data :=
  ensureConnected ;;
  id <- io generateId ;;
  createdAt <- io newDate ;;
  updatedAt <- io newDate ;;
  let record :=
    obj_set
      (obj_set (obj_set (spread [] d) "_id" (VStr id))
         "_createdAt" (VStr createdAt))
      "_updatedAt" (VStr updatedAt) in
  rs <- gets data ;;
  set_data (rs ++ [record]) ;;
  a <- gets autoSave ;;
  when a saveToFile ;;
  ret record.

Definition get (query : Query) : M State (list Data) :=
  ensureConnected ;;
  rs <- gets data ;;
  match query with
  | [] => ret rs
  | _ => ret (filter (fun record => matchesQuery record query) rs)
  end.

Definition getOne (query : Query) : M State (option Data) :=
  ensureConnected ;;
  results <- get query ;;
  ret (hd_error results).

Definition update (query : Query) (d : Data) : M State nat :=
  ensureConnected ;;
  rs <- gets data ;;
  out <- io (update_loop (fun record => matchesQuery record query)
               (yaml_merge d) rs) ;;
  set_data (fst out) ;;
  a <- gets autoSave ;;
  when ((0 <? snd out)%nat && a) saveToFile ;;
  ret (snd out).

Definition delete (query : Query) : M State nat :=
  ensureConnected ;;
  rs <- gets data ;;
  let beforeLength := List.length rs in
  set_data (filter (fun record => negb (matchesQuery record query)) rs) ;;
  rs' <- gets data ;;
  let count := beforeLength - List.length rs' in
  a <- gets autoSave ;;
  when ((0 <? count)%nat && a) saveToFile ;;
  ret count.

Definition exists_ (query : Query) : M State bool :=
  ensureConnected ;;
  rs <- gets data ;;
  ret (existsb (fun record => matchesQuery record query) rs).

Definition count (query : Query) : M State nat :=
  ensureConnected ;;
  rs <- gets data ;;
  match query with
  | [] => ret (List.length rs)
  | _ =>
      ret (List.length (filter (fun record => matchesQuery record query) rs))
  end.

Definition getAllData (s : State) : list Data := data s.

Definition save : M State unit :=
  ensureConnected ;; saveToFile.

Definition clear : M State unit :=
  ensureConnected ;; set_data [] ;; saveToFile.

Definition drop : M State unit :=
  ensureConnected ;;
  f <- gets (fun s => file (world s)) ;;
  match f with
  | Absent => ret tt
  | _ => io unlink
  end ;;
  set_data [].

Definition reload : M State unit :=
  ensureConnected ;;
  f <- gets (fun s => file (world s)) ;;
  match f with
  | Holds parsed => set_data (array_or_empty parsed)
  | Malformed => throw ParseError
  | Absent => ret tt
  end.

Definition isAutoSaveEnabled (s : State) : bool := autoSave s.

Definition setAutoSave (enabled : bool) : M State unit :=
  modify (fun s => mkState enabled (data s) (isConnected s) (world s)).

End YAMLDriver1.

(* ================================================================== *)
(** * [YAMLDriver] without the option: persistence by [save] only *)

Module YAMLDriver2.

Record State : Type := mkState {
  data : list Data;
  isConnected : bool;
  world : World
}.

(** [new YAMLDriver(filePath, yamlOptions)]. *)
Definition create (w : World) : State := mkState [] false w.

Definition io {A} (m : M World A) : M State A :=
  fun s =>
    match m (world s) with
    | Ok a w => Ok a (mkState (data s) (isConnected s) w)
    | Throw e w => Throw e (mkState (data s) (isConnected s) w)
    end.

Definition set_data (rs : list Data) : M State unit :=
  modify (fun s => mkState rs (isConnected s) (world s)).

Definition set_isConnected (b : bool) : M State unit :=
  modify (fun s => mkState (data s) b (world s)).

Definition ensureConnected : M State unit :=
  c <- gets isConnected ;;
  if c then ret tt else throw NotConnected.

Definition saveToFile : M State unit :=
  rs <- gets data ;; io (write rs).

Definition connect : M State unit :=
  f <- gets (fun s => file (world s)) ;;
  match f with
  | Holds parsed => set_data (array_or_empty parsed)
  | Malformed => set_data []
  | Absent => set_data [] ;; saveToFile
  end ;;
  set_isConnected true.

Definition disconnect : M State unit :=
  set_isConnected false.

Definition set (d : Data) : M State Data :=
  ensureConnected ;;
  id <- io generateId ;;
  createdAt <- io newDate ;;
  updatedAt <- io newDate ;;
  let record :=
    obj_set
      (obj_set (obj_set (spread [] d) "_id" (VStr id))
         "_createdAt" (VStr createdAt))
      "_updatedAt" (VStr updatedAt) in
  rs <- gets data ;;
  set_data (rs ++ [record]) ;;
  ret record.

Definition get (query : Query) : M State (list Data) :=
  ensureConnected ;;
  rs <- gets data ;;
  match query with
  | [] => ret rs
  | _ => ret (filter (fun record => matchesQuery record query) rs)
  end.

Definition getOne (query : Query) : M State (option Data) :=
  ensureConnected ;;
  results <- get query ;;
  ret (hd_error results).

Definition update (query : Query) (d : Data) : M State nat :=
  ensureConnected ;;
  rs <- gets data ;;
  out <- io (update_loop (fun record => matchesQuery record query)
               (yaml_merge d) rs) ;;
  set_data (fst out) ;;
  ret (snd out).

Definition delete (query : Query) : M State nat :=
  ensureConnected ;;
  rs <- gets data ;;
  let beforeLength := List.length rs in
  set_data (filter (fun record => negb (matchesQuery record query)) rs) ;;
  rs' <- gets data ;;
  ret (beforeLength - List.length rs').

Definition exists_ (query : Query) : M State bool :=
  ensureConnected ;;
  rs <- gets data ;;
  ret (existsb (fun record => matchesQuery record query) rs).

Definition count (query : Query) : M State nat :=
  ensureConnected ;;
  rs <- gets data ;;
  match query with
  | [] => ret (List.length rs)
  | _ =>
      ret (List.length (filter (fun record => matchesQuery record query) rs))
  end.

Definition getAllData (s : State) : list Data := data s.

Definition save : M State unit :=
  ensureConnected ;; saveToFile.

Definition clear : M State unit :=
  ensureConnected ;; set_data [].

Definition drop : M State unit :=
  ensureConnected ;;
  f <- gets (fun s => file (world s)) ;;
  match f with
  | Absent => ret tt
  | _ => io unlink
  end ;;
  set_data [].

Definition reload : M State unit :=
  ensureConnected ;;
  f <- gets (fun s => file (world s)) ;;
  match f with
  | Holds parsed => set_data (array_or_empty parsed)
  | Malformed => throw ParseError
  | Absent => ret tt
  end.

End YAMLDriver2.

(* ================================================================== *)
(** * The drivers behind their common interface *)

(** A driver instance of any of the four classes, as a client holding an
    [IDriver] has it; a method call dispatches on the class.  A method the
    class does not define is not a function, and calling it throws. *)
Inductive Driver : Type :=
| JSON1 (s : JSONDriver1.State)
| JSON2 (s : JSONDriver2.State)
| YAML1 (s : YAMLDriver1.State)
| YAML2 (s : YAMLDriver2.State).

Definition lift {S A} (inj : S -> Driver) (r : Result S A) : Result Driver A :=
  match r with
  | Ok a s => Ok a (inj s)
  | Throw e s => Throw e (inj s)
  end.

Definition dispatch {A}
    (j1 : M JSONDriver1.State A) (j2 : M JSONDriver2.State A)
    (y1 : M YAMLDriver1.State A) (y2 : M YAMLDriver2.State A) : M Driver A :=
  fun i =>
    match i with
    | JSON1 s => lift JSON1 (j1 s)
    | JSON2 s => lift JSON2 (j2 s)
    | YAML1 s => lift YAML1 (y1 s)
    | YAML2 s => lift YAML2 (y2 s)
    end.

Definition connect : M Driver unit :=
  dispatch JSONDriver1.connect JSONDriver2.connect
    YAMLDriver1.connect YAMLDriver2.connect.

Definition disconnect : M Driver unit :=
  dispatch JSONDriver1.disconnect JSONDriver2.disconnect
    YAMLDriver1.disconnect YAMLDriver2.disconnect.

Definition set (d : Data) : M Driver Data :=
  dispatch (JSONDriver1.set d) (JSONDriver2.set d)
    (YAMLDriver1.set d) (YAMLDriver2.set d).

Definition get (query : Query) : M Driver (list Data) :=
  dispatch (JSONDriver1.get query) (JSONDriver2.get query)
    (YAMLDriver1.get query) (YAMLDriver2.get query).

Definition getOne (query : Query) : M Driver (option Data) :=
  dispatch (JSONDriver1.getOne query) (JSONDriver2.getOne query)
    (YAMLDriver1.getOne query) (YAMLDriver2.getOne query).

Definition update (query : Query) (d : Data) : M Driver nat :=
  dispatch (JSONDriver1.update query d) (JSONDriver2.update query d)
    (YAMLDriver1.update query d) (YAMLDriver2.update query d).

Definition delete (query : Query) : M Driver nat :=
  dispatch (JSONDriver1.delete query) (JSONDriver2.delete query)
    (YAMLDriver1.delete query) (YAMLDriver2.delete query).

Definition exists_ (query : Query) : M Driver bool :=
  dispatch (JSONDriver1.exists_ query) (JSONDriver2.exists_ query)
    (YAMLDriver1.exists_ query) (YAMLDriver2.exists_ query).

Definition count (query : Query) : M Driver nat :=
  dispatch (JSONDriver1.count query) (JSONDriver2.count query)
    (YAMLDriver1.count query) (YAMLDriver2.count query).

Definition clear : M Driver unit :=
  dispatch JSONDriver1.clear JSONDriver2.clear
    YAMLDriver1.clear YAMLDriver2.clear.

(** The first [JSONDriver] has no [reload]. *)
Definition reload : M Driver unit :=
  dispatch (throw TypeError) JSONDriver2.reload
    YAMLDriver1.reload YAMLDriver2.reload.

(** ** What an instance holds *)

(** The in-memory collection: [this.records] or [this.data]. *)
Definition collection (i : Driver) : list Data :=
  match i with
  | JSON1 s => JSONDriver1.records s
  | JSON2 s => JSONDriver2.data s
  | YAML1 s => YAMLDriver1.data s
  | YAML2 s => YAMLDriver2.data s
  end.

Definition world_of (i : Driver) : World :=
  match i with
  | JSON1 s => JSONDriver1.world s
  | JSON2 s => JSONDriver2.world s
  | YAML1 s => YAMLDriver1.world s
  | YAML2 s => YAMLDriver2.world s
  end.

(** Whether the class has the [isConnected] gate at all. *)
Definition gated (i : Driver) : bool :=
  match i with
  | JSON1 _ => false
  | _ => true
  end.

(** The gate: [this.isConnected]; an instance of the class without the
    gate is never held back. *)
Definition connected (i : Driver) : bool :=
  match i with
  | JSON1 _ => true
  | JSON2 s => JSONDriver2.isConnected s
  | YAML1 s => YAMLDriver1.isConnected s
  | YAML2 s => YAMLDriver2.isConnected s
  end.

Definition is_yaml (i : Driver) : bool :=
  match i with
  | YAML1 _ | YAML2 _ => true
  | _ => false
  end.

(** The matcher the class selects records with. *)
Definition matcher_of (i : Driver) : Data -> Query -> bool :=
  if is_yaml i then matchesQuery else matches.




(** Whether a mutation of the instance is followed by a write, class by
    class.  The two classes with the [autoSave] option follow it; the
    second [JSONDriver] saves after every mutation and has no way to turn
    that off; the [YAMLDriver] without the option writes on [save] only. *)
Definition autoSaveMode (i : Driver) : bool :=
  match i with
  | JSON1 s => JSONDriver1.autoSave s
  | JSON2 _ => true
  | YAML1 s => YAMLDriver1.autoSave s
  | YAML2 _ => false
  end.

(** Whether [disconnect] writes: the first [JSONDriver] awaits
    [persist()], the [YAMLDriver] with the option calls [saveToFile()] when
    [this.autoSave] holds, the other two only close the gate. *)
Definition saves_on_disconnect (i : Driver) : bool :=
  match i with
  | JSON1 _ => true
  | YAML1 s => YAMLDriver1.autoSave s
  | JSON2 _ | YAML2 _ => false
  end.

Definition state_of {S A} (r : Result S A) : S :=
  match r with
  | Ok _ s => s
  | Throw _ s => s
  end.

(** The instance [i] holding the collection [c] in memory instead of its
    own. *)
Definition with_collection (c : list Data) (i : Driver) : Driver :=
  match i with
  | JSON1 s =>
      JSON1 (JSONDriver1.mkState c (JSONDriver1.autoSave s)
               (JSONDriver1.world s))
  | JSON2 s =>
      JSON2 (JSONDriver2.mkState c (JSONDriver2.isConnected s)
               (JSONDriver2.world s))
  | YAML1 s =>
      YAML1 (YAMLDriver1.mkState (YAMLDriver1.autoSave s) c
               (YAMLDriver1.isConnected s) (YAMLDriver1.world s))
  | YAML2 s =>
      YAML2 (YAMLDriver2.mkState c (YAMLDriver2.isConnected s)
               (YAMLDriver2.world s))
  end.

(* ================================================================== *)
(** * Records as objects: the references an array holds *)

(** A record is an object and an array is an object: [this.data] is an
    array of references to records.  [filter] and the spread
    [[...this.data]] build a new array of the same references; neither
    copies a record. *)
Module Refs.

Definition ref : Type := nat.

Record Store : Type := mkStore {
  heap : list Data;   (* the record objects, by address *)
  data : list ref     (* the elements of the array [this.data] *)
}.

Definition deref (h : list Data) (r : ref) : Data := nth r h [].

(** The collection as the value-level drivers see it. *)
Definition view (st : Store) : list Data := map (deref (heap st)) (data st).

(** [this.data.push(record)] with [record] a fresh object. *)
Definition push (record : Data) (st : Store) : ref * Store :=
  (List.length (heap st),
   mkStore (heap st ++ [record]) (data st ++ [List.length (heap st)])).

(** The elements of the array that [get(query)] of the class of [i]
    builds: [this.records.filter(record => this.matches(record, query))] in
    the first [JSONDriver]; in the other classes [[...this.data]] on the
    empty query and [this.data.filter(record => this.matchesQuery(record,
    query))] otherwise. *)
Definition select (i : Driver) (query : Query) (st : Store) : list ref :=
  let filtered (matcher : Data -> Query -> bool) :=
    filter (fun r => matcher (deref (heap st) r) query) (data st) in
  match i with
  | JSON1 _ => filtered matches
  | JSON2 _ =>
      match query with
      | [] => data st
      | _ => filtered matches
      end
  | YAML1 _ | YAML2 _ =>
      match query with
      | [] => data st
      | _ => filtered matchesQuery
      end
  end.

(** An array, by identity: the one [this.data] holds, or one of those a
    call of [get] built and handed to its caller. *)
Inductive array : Type :=
| Data_array
| Result_array (k : nat).

(** An instance with its objects: [shell] carries the fields other than
    the collection, [store] the record objects and the array [this.data],
    [results] the arrays handed out so far. *)
Record Instance : Type := mkInstance {
  shell : Driver;
  store : Store;
  results : list (list ref)
}.


Definition contents (inst : Instance) (a : array) : list ref :=
  match a with
  | Data_array => data (store inst)
  | Result_array k => nth k (results inst) []
  end.

(** The records an array refers to. *)
Definition records (inst : Instance) (a : array) : list Data :=
  map (deref (heap (store inst))) (contents inst a).

(** [get(query)]: behind the gate, the array it builds is a new object. *)
Definition get (query : Query) : M Instance array :=
  fun inst =>
    if connected (shell inst)
    then Ok (Result_array (List.length (results inst)))
           (mkInstance (shell inst) (store inst)
              (results inst ++ [select (shell inst) query (store inst)]))
    else Throw NotConnected inst.





End Refs.

(* ================================================================== *)
(** * The specification's words *)

(** Equality of the specification's values, where a mapping is a set of
    fields: two mappings are equal when they have the same fields with equal
    values, in whatever order they are written; two lists are equal when
    they are equal element by element, in order. *)
#[warnings="-register-all"]
Inductive value_eq : Value -> Value -> Prop :=
| value_eq_null : value_eq VNull VNull
| value_eq_bool (b : bool) : value_eq (VBool b) (VBool b)
| value_eq_num (n : Z) : value_eq (VNum n) (VNum n)
| value_eq_str (s : string) : value_eq (VStr s) (VStr s)
| value_eq_list (l1 l2 : list Value) :
    Forall2 value_eq l1 l2 -> value_eq (VList l1) (VList l2)
| value_eq_map (m1 m2 m2' : list (string * Value)) :
    Permutation m2 m2' ->
    Forall2 (fun a b => fst a = fst b /\ value_eq (snd a) (snd b)) m1 m2' ->
    value_eq (VMap m1) (VMap m2).

(** The predicate matcher of the specification: a nested mapping in the
    query is a subset specification against a mapping in the record; a
    list, like a scalar, matches the value equal to it; a field the record
    does not have matches nothing. *)
Fixpoint spec_match_value (rv : option Value) (qv : Value) {struct qv} : Prop :=
  match qv with
  | VMap q =>
      match rv with
      | Some (VMap r) =>
          (fix every (q : list (string * Value)) : Prop :=
             match q with
             | [] => True
             | (key, v) :: q' => spec_match_value (obj_get r key) v /\ every q'
             end) q
      | _ => False
      end
  | _ =>
      match rv with
      | Some v => value_eq qv v
      | None => False
      end
  end.

Definition spec_matches (record : Data) (query : Query) : Prop :=
  Forall (fun kv => spec_match_value (obj_get record (fst kv)) (snd kv)) query.

(** The same matcher with lists compared as they are written: a list
    matches the list with the same JSON text, that is the same elements in
    the same order, with the fields of any mapping among them in the same
    order too. *)
Fixpoint serial_match_value (rv : option Value) (qv : Value) {struct qv}
  : Prop :=
  match qv with
  | VMap q =>
      match rv with
      | Some (VMap r) =>
          (fix every (q : list (string * Value)) : Prop :=
             match q with
             | [] => True
             | (key, v) :: q' =>
                 serial_match_value (obj_get r key) v /\ every q'
             end) q
      | _ => False
      end
  | _ => rv = Some qv
  end.

Definition serial_matches (record : Data) (query : Query) : Prop :=
  Forall (fun kv => serial_match_value (obj_get record (fst kv)) (snd kv))
    query.

(** No mapping occurs in the value, at any depth of nested lists. *)
Fixpoint no_mapping (v : Value) : bool :=
  match v with
  | VMap _ => false
  | VList l => forallb no_mapping l
  | _ => true
  end.

(** No list of the query value, at any depth of nested mappings, holds a
    mapping: on such a query the order in which the fields of a mapping are
    written plays no part. *)
Fixpoint lists_flat_value (qv : Value) : bool :=
  match qv with
  | VMap q =>
      (fix every (q : list (string * Value)) : bool :=
         match q with
         | [] => true
         | (_, v) :: q' => lists_flat_value v && every q'
         end) q
  | VList l => forallb no_mapping l
  | _ => true
  end.

Definition lists_flat (query : Query) : bool := lists_flat_value (VMap query).

(** No key of the query value, at any depth of nested mappings, is
    [__proto__], the one key under which every object has an object to
    show without holding a field of that name. *)
Fixpoint proto_free_value (qv : Value) : bool :=
  match qv with
  | VMap q =>
      (fix every (q : list (string * Value)) : bool :=
         match q with
         | [] => true
         | (key, v) :: q' =>
             negb (String.eqb key "__proto__") && proto_free_value v
             && every q'
         end) q
  | _ => true
  end.

Definition proto_free (query : Query) : bool := proto_free_value (VMap query).

(** Matching by equality alone: every key of the query is a field of the
    record with exactly the query's value. *)
Definition exact_matches (record : Data) (query : Query) : Prop :=
  Forall (fun kv => obj_get record (fst kv) = Some (snd kv)) query.

(** The fields of an updated record [new], from the record [old] it
    replaces, the patch and the reading [now] of the clock: [_updatedAt] is
    [now], the fields in [forced] are those of [old], and every other field
    is the patch's if the patch has it and [old]'s if not. *)
Definition merged_fields (forced : list string) (patch old new : Data)
    (now : string) : Prop :=
  obj_get new "_updatedAt" = Some (VStr now)
  /\ (forall k, In k forced -> obj_get new k = obj_get old k)
  /\ (forall k, k <> "_updatedAt" -> ~ In k forced ->
        obj_get new k = match obj_get patch k with
                        | Some v => Some v
                        | None => obj_get old k
                        end).

(** The fields [update] keeps from the patch's reach. *)
Definition forced_fields (i : Driver) : list string :=
  if is_yaml i then ["_id"; "_createdAt"] else [].

(** The collection [new] after an update of [old] that started in world
    [w] and changed [count] records. *)
Definition updated (matcher : Data -> bool) (forced : list string)
    (patch : Data) (w : World) (count : nat) (old new : list Data) : Prop :=
  Forall2
    (fun r r' =>
       if matcher r
       then exists k, ticks w <= k < ticks w + count
                      /\ merged_fields forced patch r r' (clock w k)
       else r' = r)
    old new.

(** The fields [set] writes itself. *)
Definition system_field (k : string) : bool :=
  String.eqb k "_id" || String.eqb k "_createdAt" || String.eqb k "_updatedAt".

(** The world after [n] more readings of the clock. *)
Definition advance (n : nat) (w : World) : World :=
  mkWorld (file w) (writable w) (written w) (clock w) (n + ticks w)
    (ids w) (drawn w).

(** The [_id] a new record ends up with: the first [JSONDriver] writes
    none, so the record has the caller's if there is one; the second keeps
    a truthy [_id] of the caller and generates one otherwise; the YAML
    driver always generates one. *)
Definition assigned_id (i : Driver) (d : Data) : option Value :=
  let fresh := Some (VStr (ids (world_of i) (drawn (world_of i)))) in
  match i with
  | JSON1 _ => obj_get d "_id"
  | JSON2 _ => if truthy (obj_get d "_id") then obj_get d "_id" else fresh
  | _ => fresh
  end.

(** Between [i] and [i'] the full collection of [i'] was handed to the
    writer, last, and is what the backing file now holds. *)
Definition saved (i i' : Driver) : Prop :=
  written (world_of i') = written (world_of i) ++ [collection i']
  /\ file (world_of i') = encode (collection i').


(* ================================================================== *)
(** * Concrete worlds and instances *)

Definition clock0 (k : nat) : string := ("t" ++ string_of_Z (Z.of_nat k))%string.
Definition ids0 (k : nat) : string := ("id" ++ string_of_Z (Z.of_nat k))%string.

(** A world with no backing file yet and a writer that works. *)
Definition world0 : World := mkWorld Absent true [] clock0 0 ids0 0.

(** A world whose backing file the decoder rejects. *)
Definition world_bad : World := mkWorld Malformed true [] clock0 0 ids0 0.

Definition record_a : Data :=
  [("_id", VStr "a"); ("_createdAt", VStr "then"); ("n", VNum 1)].

(** A connected instance of each class, holding [record_a]. *)
Definition json1_a : Driver := JSON1 (JSONDriver1.mkState [record_a] true world0).
Definition json2_a : Driver := JSON2 (JSONDriver2.mkState [record_a] true world0).
Definition yaml1_a : Driver :=
  YAML1 (YAMLDriver1.mkState true [record_a] true world0).
Definition yaml2_a : Driver := YAML2 (YAMLDriver2.mkState [record_a] true world0).

(** The query [{a: {b: 2}}] and a record with [a = {b: 2, c: 99}]. *)
Definition query_ab : Query := [("a", VMap [("b", VNum 2)])].
Definition record_abc : Data :=
  [("a", VMap [("b", VNum 2); ("c", VNum 99)])].

Definition patch_id : Data := [("_id", VStr "x"); ("n", VNum 2)].

Definition yaml1_bad : Driver :=
  YAML1 (YAMLDriver1.mkState true [record_a] true world_bad).

Definition data_with_id : Data := [("_id", VStr "mine"); ("a", VNum 1)].


(* ================================================================== *)
(** * The rest of the interface *)

(** Manual persistence: [flush] of the first [JSONDriver] and [save] of the
    other classes. *)
Definition save : M Driver unit :=
  dispatch JSONDriver1.flush JSONDriver2.save
    YAMLDriver1.save YAMLDriver2.save.

(** The first [JSONDriver] has no [drop]. *)
Definition drop : M Driver unit :=
  dispatch (throw TypeError) JSONDriver2.drop
    YAMLDriver1.drop YAMLDriver2.drop.

(** [getAllData()], where the class has it; it is not behind the gate. *)
Definition getAllData (i : Driver) : option (list Data) :=
  match i with
  | JSON1 _ => None
  | JSON2 s => Some (JSONDriver2.getAllData s)
  | YAML1 s => Some (YAMLDriver1.getAllData s)
  | YAML2 s => Some (YAMLDriver2.getAllData s)
  end.

(** A value in which every object reached through objects has each key
    once, as every JavaScript object has. *)
Fixpoint wf_value (v : Value) : Prop :=
  match v with
  | VMap m =>
      NoDup (map fst m)
      /\ (fix props (m : list (string * Value)) : Prop :=
            match m with
            | [] => True
            | (_, x) :: m' => wf_value x /\ props m'
            end) m
  | _ => True
  end.

Definition wf_query (q : Query) : Prop :=
  wf_obj q /\ Forall (fun kv => wf_value (snd kv)) q.

(** The world [w] left by a call did not touch the backing file of [w0]:
    same content, nothing more handed to the writer. *)
Definition untouched (w0 w : World) : Prop :=
  file w = file w0 /\ written w = written w0.

(** A world whose writer fails. *)
Definition world_ro : World := mkWorld Absent false [] clock0 0 ids0 0.

(** Instances in the manual mode, holding [record_a]. *)
Definition json1_manual : Driver :=
  JSON1 (JSONDriver1.mkState [record_a] false world0).
Definition yaml1_manual : Driver :=
  YAML1 (YAMLDriver1.mkState false [record_a] true world0).

(** A connected instance whose writer fails. *)
Definition yaml1_ro : Driver :=
  YAML1 (YAMLDriver1.mkState true [record_a] true world_ro).

(** A legacy snapshot: an object whose [records] property maps keys to
    records. *)
Definition legacy_file : Value :=
  VMap [("records", VMap [("k1", VMap record_a); ("k2", VMap [("n", VNum 2)])])].

Definition world_legacy : World :=
  mkWorld (Holds legacy_file) true [] clock0 0 ids0 0.

Definition world_null : World :=
  mkWorld (Holds VNull) true [] clock0 0 ids0 0.

(* ================================================================== *)
(** * Reading a serialised value back *)

(** The devices of the proof that [JSON.stringify] tells values apart: the
    classes of characters, the decoder of one escaped character, and the
    tails of the array and object loops by name. *)

Module Text.

Local Open Scope string_scope.

Definition head (s : string) : option ascii :=
  match s with
  | EmptyString => None
  | String c _ => Some c
  end.

(** The characters of a number: the sign and the digits. *)
Definition is_numchar (c : ascii) : bool :=
  let n := N_of_ascii c in
  ((n =? 45) || ((48 <=? n) && (n <=? 57)))%N.

Fixpoint all_numchar (s : string) : bool :=
  match s with
  | EmptyString => true
  | String c s' => is_numchar c && all_numchar s'
  end.

(** What follows a number is not a number character. *)
Definition nonum (r : string) : Prop :=
  match r with
  | EmptyString => True
  | String c _ => is_numchar c = false
  end.

Definition hex_value (c : ascii) : N :=
  let n := N_of_ascii c in
  (if n <? 58 then n - 48 else n - 87)%N.

(** Reads back one character of a string literal's body. *)
Definition unescape1 (s : string) : option (ascii * string) :=
  match s with
  | EmptyString => None
  | String c rest =>
      if Ascii.eqb c bslash then
        match rest with
        | String d rest' =>
            if Ascii.eqb d "u" then
              match rest' with
              | String _ (String _ (String h (String l rest''))) =>
                  Some (ascii_of_N (16 * hex_value h + hex_value l), rest'')
              | _ => None
              end
            else if Ascii.eqb d "b" then Some (ascii_of_nat 8, rest')
            else if Ascii.eqb d "f" then Some (ascii_of_nat 12, rest')
            else if Ascii.eqb d "n" then Some (ascii_of_nat 10, rest')
            else if Ascii.eqb d "r" then Some (ascii_of_nat 13, rest')
            else if Ascii.eqb d "t" then Some (ascii_of_nat 9, rest')
            else Some (d, rest')
        | EmptyString => None
        end
      else Some (c, rest)
  end.

Fixpoint list_rest (l : list Value) : string :=
  match l with
  | [] => "]"
  | y :: l' => "," ++ JSON_stringify y ++ list_rest l'
  end.

Fixpoint map_rest (m : list (string * Value)) : string :=
  match m with
  | [] => "}"
  | (k, y) :: m' => "," ++ quote_string k ++ ":" ++ JSON_stringify y ++ map_rest m'
  end.

(** The first character of a serialised value gives its kind away. *)
Definition kind_of_char (c : ascii) : nat :=
  if is_numchar c then 2
  else if Ascii.eqb c "n" then 0
  else if Ascii.eqb c "t" || Ascii.eqb c "f" then 1
  else if Ascii.eqb c dquote then 3
  else if Ascii.eqb c "[" then 4
  else if Ascii.eqb c "{" then 5
  else 6.

Definition kind_of (v : Value) : nat :=
  match v with
  | VNull => 0
  | VBool _ => 1
  | VNum _ => 2
  | VStr _ => 3
  | VList _ => 4
  | VMap _ => 5
  end.

Definition unique_at (v1 : Value) : Prop :=
  forall v2 r1 r2,
    nonum r1 -> nonum r2 ->
    JSON_stringify v1 ++ r1 = JSON_stringify v2 ++ r2 ->
    v1 = v2 /\ r1 = r2.

End Text.

(* ================================================================== *)
(* ================================================================== *)
(** * Theorems *)

Section ValueInduction.
Variable P : Value -> Prop.
Hypothesis HNull : P VNull.
Hypothesis HBool : forall b, P (VBool b).
Hypothesis HNum : forall n, P (VNum n).
Hypothesis HStr : forall s, P (VStr s).
Hypothesis HList : forall l, Forall P l -> P (VList l).
Hypothesis HMap : forall m, Forall (fun kv => P (snd kv)) m -> P (VMap m).

Fixpoint Value_nested_ind (v : Value) : P v :=
  match v with
  | VNull => HNull
  | VBool b => HBool b
  | VNum n => HNum n
  | VStr s => HStr s
  | VList l =>
      HList l
        ((fix elems (l : list Value) : Forall P l :=
            match l with
            | [] => Forall_nil P
            | x :: l' => Forall_cons x (Value_nested_ind x) (elems l')
            end) l)
  | VMap m =>
      HMap m
        ((fix props (m : list (string * Value))
            : Forall (fun kv => P (snd kv)) m :=
            match m with
            | [] => Forall_nil _
            | kv :: m' =>
                Forall_cons kv (Value_nested_ind (snd kv)) (props m')
            end) m)
  end.
End ValueInduction.

Example stringify_ex :
  JSON_stringify
    (VMap [("a", VList [VNum 1; VNum (-20); VNull]); ("b", VStr "x\y")])
  = ("{" ++ String dquote ("a" ++ String dquote (":[1,-20,null]," ++
    String dquote ("b" ++ String dquote (":" ++ String dquote ("x\\y" ++
    String dquote "}"))))))%string.
Proof. reflexivity. Qed.

(* ================================================================== *)
(** * [JSON.stringify] tells values apart *)

Module TextFacts.

Import Text.
Local Open Scope string_scope.

Lemma append_assoc (a b c : string) : (a ++ b) ++ c = a ++ (b ++ c).
Proof. induction a as [|x a IH]; simpl; [reflexivity | now rewrite IH]. Qed.

Lemma span_unique (a1 : string) :
  forall a2 r1 r2,
    all_numchar a1 = true -> all_numchar a2 = true ->
    nonum r1 -> nonum r2 ->
    a1 ++ r1 = a2 ++ r2 -> a1 = a2 /\ r1 = r2.
Proof.
  induction a1 as [|c a1 IH]; intros [|d a2] r1 r2 H1 H2 N1 N2 E; simpl in *.
  - auto.
  - subst r1. simpl in N1. apply andb_prop in H2. destruct H2; congruence.
  - subst r2. simpl in N2. apply andb_prop in H1. destruct H1; congruence.
  - injection E as -> E.
    apply andb_prop in H1, H2. destruct H1 as [_ H1], H2 as [_ H2].
    destruct (IH _ _ _ H1 H2 N1 N2 E) as [-> ->]. auto.
Qed.

(** ** Numbers *)

Lemma uint_numchars (d : uint) : all_numchar (NilEmpty.string_of_uint d) = true.
Proof. induction d; simpl; auto. Qed.

Lemma string_of_Z_numchars (n : Z) : all_numchar (string_of_Z n) = true.
Proof.
  unfold string_of_Z, NilZero.string_of_int, NilZero.string_of_uint.
  destruct (Z.to_int n) as [d|d]; destruct d; simpl; auto using uint_numchars.
Qed.

Lemma string_of_Z_nonempty (n : Z) : string_of_Z n <> EmptyString.
Proof.
  unfold string_of_Z, NilZero.string_of_int, NilZero.string_of_uint.
  destruct (Z.to_int n) as [d|d]; destruct d; simpl; discriminate.
Qed.

Lemma to_int_nonnil (n : Z) : Z.to_int n <> Pos Nil /\ Z.to_int n <> Neg Nil.
Proof.
  destruct n as [|p|p]; simpl; split; try discriminate;
    intros [= H]; now apply DecimalPos.Unsigned.to_uint_nonnil in H.
Qed.

Lemma string_of_Z_inj (a b : Z) : string_of_Z a = string_of_Z b -> a = b.
Proof.
  unfold string_of_Z. intros E.
  apply DecimalZ.to_int_inj.
  destruct (to_int_nonnil a) as [A1 A2], (to_int_nonnil b) as [B1 B2].
  pose proof (NilZero.isi _ A1 A2) as Ha.
  pose proof (NilZero.isi _ B1 B2) as Hb.
  rewrite E in Ha. congruence.
Qed.

Lemma string_of_Z_head (n : Z) :
  exists c s, string_of_Z n = String c s /\ is_numchar c = true.
Proof.
  pose proof (string_of_Z_numchars n) as H.
  pose proof (string_of_Z_nonempty n) as N.
  destruct (string_of_Z n) as [|c s]; [congruence|].
  simpl in H. apply andb_prop in H. destruct H. eauto.
Qed.

(** ** String literals *)

Lemma unescape1_escape_char (c : ascii) (rest : string) :
  unescape1 (escape_char c ++ rest) = Some (c, rest).
Proof.
  destruct c as [[] [] [] [] [] [] [] []]; reflexivity.
Qed.

Lemma escape_char_head (c : ascii) (rest : string) :
  exists d s, escape_char c ++ rest = String d s /\ d <> dquote.
Proof.
  destruct c as [[] [] [] [] [] [] [] []];
    (eexists; eexists; split; [reflexivity | discriminate]).
Qed.

Lemma escape_unique (s1 : string) :
  forall s2 r1 r2,
    escape s1 ++ String dquote r1 = escape s2 ++ String dquote r2 ->
    s1 = s2 /\ r1 = r2.
Proof.
  induction s1 as [|c s1 IH]; intros [|d s2] r1 r2 E; simpl in E.
  - injection E as E. auto.
  - rewrite append_assoc in E.
    destruct (escape_char_head d (escape s2 ++ String dquote r2))
      as (x & t & Hx & Hq).
    rewrite Hx in E. injection E as E _. congruence.
  - rewrite append_assoc in E.
    destruct (escape_char_head c (escape s1 ++ String dquote r1))
      as (x & t & Hx & Hq).
    rewrite Hx in E. injection E as E _. congruence.
  - rewrite !append_assoc in E.
    apply (f_equal unescape1) in E.
    rewrite !unescape1_escape_char in E.
    injection E as -> E.
    destruct (IH _ _ _ E) as [-> ->]. auto.
Qed.

Lemma quote_string_unique (s1 s2 r1 r2 : string) :
  quote_string s1 ++ r1 = quote_string s2 ++ r2 -> s1 = s2 /\ r1 = r2.
Proof.
  unfold quote_string. simpl. intros [= E].
  rewrite !append_assoc in E. simpl in E.
  now apply escape_unique.
Qed.

(** ** Values *)

Lemma stringify_cons (x : Value) (l : list Value) :
  JSON_stringify (VList (x :: l)) = "[" ++ JSON_stringify x ++ list_rest l.
Proof. reflexivity. Qed.

Lemma stringify_props (k : string) (x : Value) (m : list (string * Value)) :
  JSON_stringify (VMap ((k, x) :: m))
  = "{" ++ quote_string k ++ ":" ++ JSON_stringify x ++ map_rest m.
Proof. reflexivity. Qed.

Lemma stringify_head (v : Value) (r : string) :
  exists c s, JSON_stringify v ++ r = String c s /\ kind_of_char c = kind_of v.
Proof.
  destruct v as [|[]|n|s|[|x l]|[|[k x] m]];
    try (eexists; eexists; split; [reflexivity | reflexivity]).
  destruct (string_of_Z_head n) as (c & t & E & Hc).
  exists c, (t ++ r). simpl. rewrite E. split; [reflexivity|].
  unfold kind_of_char. now rewrite Hc.
Qed.

Lemma stringify_kind (v1 v2 : Value) (r1 r2 : string) :
  JSON_stringify v1 ++ r1 = JSON_stringify v2 ++ r2 -> kind_of v1 = kind_of v2.
Proof.
  intros E.
  destruct (stringify_head v1 r1) as (c1 & s1 & E1 & K1).
  destruct (stringify_head v2 r2) as (c2 & s2 & E2 & K2).
  rewrite E1, E2 in E. injection E as -> _. congruence.
Qed.

(** A value is followed by a comma or a closing bracket, never by a
    character a value begins with. *)
Lemma stringify_not_closing (v : Value) (r : string) (c : ascii) (s : string) :
  kind_of_char c = 6 -> JSON_stringify v ++ r <> String c s.
Proof.
  intros K E. destruct (stringify_head v r) as (d & t & E' & K').
  rewrite E' in E. injection E as -> _.
  rewrite K in K'. destruct v; discriminate.
Qed.

Lemma list_rest_nonum (l : list Value) (r : string) : nonum (list_rest l ++ r).
Proof. destruct l; reflexivity. Qed.

Lemma map_rest_nonum (m : list (string * Value)) (r : string) :
  nonum (map_rest m ++ r).
Proof. destruct m as [|[k y] m]; reflexivity. Qed.

Lemma String_tail_eq (c : ascii) (a b : string) :
  String c a = String c b -> a = b.
Proof. congruence. Qed.

Lemma quote_string_head (s r : string) :
  quote_string s ++ r = String dquote (escape s ++ String dquote r).
Proof. unfold quote_string. simpl. now rewrite append_assoc. Qed.

Opaque quote_string.

Lemma list_rest_unique (l1 : list Value) :
  Forall unique_at l1 ->
  forall l2 r1 r2,
    list_rest l1 ++ r1 = list_rest l2 ++ r2 -> l1 = l2 /\ r1 = r2.
Proof.
  induction 1 as [|x l1 Hx _ IH]; intros [|y l2] r1 r2 E; simpl in E.
  - apply String_tail_eq in E. auto.
  - discriminate.
  - discriminate.
  - apply String_tail_eq in E. rewrite !append_assoc in E.
    destruct (Hx y _ _ (list_rest_nonum _ _) (list_rest_nonum _ _) E)
      as [-> E'].
    destruct (IH _ _ _ E') as [-> ->]. auto.
Qed.

Lemma map_rest_unique (m1 : list (string * Value)) :
  Forall (fun kv => unique_at (snd kv)) m1 ->
  forall m2 r1 r2,
    map_rest m1 ++ r1 = map_rest m2 ++ r2 -> m1 = m2 /\ r1 = r2.
Proof.
  induction 1 as [|[k x] m1 Hx _ IH]; intros [|[k' y] m2] r1 r2 E;
    simpl in E.
  - apply String_tail_eq in E. auto.
  - discriminate.
  - discriminate.
  - apply String_tail_eq in E. rewrite !append_assoc in E.
    apply quote_string_unique in E. destruct E as [-> E].
    simpl in E, Hx. apply String_tail_eq in E. rewrite !append_assoc in E.
    destruct (Hx y _ _ (map_rest_nonum _ _) (map_rest_nonum _ _) E)
      as [-> E'].
    destruct (IH _ _ _ E') as [-> ->]. auto.
Qed.

Lemma stringify_unique (v1 : Value) : unique_at v1.
Proof.
  induction v1 as [|b1|n1|s1|l1 IHl|m1 IHm] using Value_nested_ind;
    intros v2 r1 r2 N1 N2 E;
    pose proof (stringify_kind _ _ _ _ E) as K;
    destruct v2 as [|b2|n2|s2|l2|m2]; try discriminate K; clear K.
  - simpl in E. injection E as E. auto.
  - destruct b1, b2; simpl in E; try discriminate E;
      injection E as E; auto.
  - simpl in E.
    destruct (span_unique _ _ _ _ (string_of_Z_numchars n1)
                (string_of_Z_numchars n2) N1 N2 E) as [En ->].
    apply string_of_Z_inj in En. subst. auto.
  - simpl in E. apply quote_string_unique in E. destruct E as [-> ->]. auto.
  - destruct l1 as [|x1 l1], l2 as [|x2 l2].
    + simpl in E. injection E as E. auto.
    + rewrite stringify_cons in E. simpl in E. apply String_tail_eq in E.
      rewrite append_assoc in E. symmetry in E.
      now apply stringify_not_closing in E.
    + rewrite stringify_cons in E. simpl in E. apply String_tail_eq in E.
      rewrite append_assoc in E.
      now apply stringify_not_closing in E.
    + rewrite !stringify_cons in E. simpl in E. apply String_tail_eq in E.
      rewrite !append_assoc in E.
      inversion IHl as [|? ? Hx Hl]; subst.
      destruct (Hx x2 _ _ (list_rest_nonum _ _) (list_rest_nonum _ _) E)
        as [-> E'].
      destruct (list_rest_unique _ Hl _ _ _ E') as [-> ->]. auto.
  - destruct m1 as [|[k1 x1] m1], m2 as [|[k2 x2] m2].
    + simpl in E. injection E as E. auto.
    + rewrite stringify_props in E. simpl in E. apply String_tail_eq in E.
      rewrite append_assoc, quote_string_head in E. discriminate E.
    + rewrite stringify_props in E. simpl in E. apply String_tail_eq in E.
      rewrite append_assoc, quote_string_head in E. discriminate E.
    + rewrite !stringify_props in E. simpl in E. apply String_tail_eq in E.
      rewrite !append_assoc in E.
      apply quote_string_unique in E. destruct E as [-> E].
      simpl in E. apply String_tail_eq in E. rewrite !append_assoc in E.
      inversion IHm as [|? ? Hx Hm]; subst. simpl in Hx.
      destruct (Hx x2 _ _ (map_rest_nonum _ _) (map_rest_nonum _ _) E)
        as [-> E'].
      destruct (map_rest_unique _ Hm _ _ _ E') as [-> ->]. auto.
Qed.

Transparent quote_string.

End TextFacts.

(** Two values with the same text are the same value. *)
Lemma JSON_stringify_inj (v1 v2 : Value) :
  JSON_stringify v1 = JSON_stringify v2 -> v1 = v2.
Proof.
  intros E.
  destruct (TextFacts.stringify_unique v1 v2 EmptyString EmptyString I I) as [-> _];
    [now rewrite E | reflexivity].
Qed.

Lemma JSON_stringify_eqb (v1 v2 : Value) :
  String.eqb (JSON_stringify v1) (JSON_stringify v2) = true <-> v1 = v2.
Proof.
  rewrite String.eqb_eq. split; [apply JSON_stringify_inj | now intros ->].
Qed.

(* ================================================================== *)
(** * The predicate matchers against the specification *)

Section Matchers.

Lemma strict_eq_scalar (rv : Read) (qv : Value) :
  match qv with VList _ | VMap _ => False | _ => True end ->
  strict_eq rv qv = true <-> rv = Has qv.
Proof.
  intros Hq.
  destruct qv as [|b|n|s|l|m]; try contradiction;
    destruct rv as [[|b'|n'|s'|l'|m']| | |]; simpl;
    try (split; [discriminate | discriminate || congruence]).
  - tauto.
  - rewrite Bool.eqb_true_iff. split; congruence.
  - rewrite Z.eqb_eq. split; congruence.
  - rewrite String.eqb_eq. split; congruence.
Qed.

Lemma own_Has (rv : Read) (v : Value) :
  rv <> ObjectPrototype -> (rv = Has v <-> own rv = Some v).
Proof.
  destruct rv; simpl; intros H; split; congruence.
Qed.

(** Under a key other than [__proto__] a read yields the field the object
    holds, or nothing a query value can match. *)
Lemma js_get_own (r : Data) (k : string) :
  k <> "__proto__" ->
  js_get r k <> ObjectPrototype /\ own (js_get r k) = obj_get r k.
Proof.
  intros Hk. unfold js_get.
  destruct (obj_get r k); simpl; [split; [discriminate | reflexivity]|].
  destruct (String.eqb_spec k "__proto__"); [contradiction|].
  destruct (is_prototype_method k); split; (discriminate || reflexivity).
Qed.

Lemma js_get_Has (r : Data) (k : string) (v : Value) :
  obj_get r k = Some v -> js_get r k = Has v.
Proof.
  unfold js_get. now intros ->.
Qed.

Lemma proto_free_cons (k : string) (v : Value) (q : list (string * Value)) :
  proto_free_value (VMap ((k, v) :: q)) = true <->
  k <> "__proto__" /\ proto_free_value v = true
  /\ proto_free_value (VMap q) = true.
Proof.
  change (proto_free_value (VMap ((k, v) :: q)))
    with (negb (String.eqb k "__proto__") && proto_free_value v
          && proto_free_value (VMap q)).
  rewrite !andb_true_iff, negb_true_iff.
  destruct (String.eqb_spec k "__proto__"); intuition congruence.
Qed.

Lemma matches_key_serial (qv : Value) :
  forall rv, proto_free_value qv = true -> rv <> ObjectPrototype ->
    matches_key rv qv = true <-> serial_match_value (own rv) qv.
Proof.
  induction qv as [|b|n|s|l _|q IH] using Value_nested_ind; intros rv Hpf Hrv;
    try (simpl; rewrite <- own_Has by assumption;
         apply strict_eq_scalar; exact I).
  - (* a list in the query *)
    destruct rv as [[|b'|n'|s'|l'|m']| | |]; simpl;
      try (split; [discriminate | discriminate || congruence]).
    change (String.eqb (JSON_stringify (VList l)) (JSON_stringify (VList l'))
            = true <-> Some (VList l') = Some (VList l)).
    rewrite JSON_stringify_eqb. split; congruence.
  - (* a nested mapping in the query *)
    destruct rv as [[|b'|n'|s'|l'|r]| | |]; simpl;
      try (split; [discriminate | contradiction]); [|congruence].
    clear Hrv. revert Hpf.
    induction IH as [|[k x] q' Hx _ IHq]; intros Hpf; simpl; [split; auto|].
    apply proto_free_cons in Hpf. destruct Hpf as (Hk & Hpx & Hpq).
    destruct (js_get_own r k Hk) as [Hno Hown].
    simpl in Hx. rewrite andb_true_iff, (Hx _ Hpx Hno), Hown.
    specialize (IHq Hpq).
    destruct q' as [|kv q'']; simpl in *; [tauto | rewrite IHq; tauto].
Qed.

(** The recursive call of the JSON matcher on a nested mapping is the
    matcher itself. *)
Lemma matches_key_map (r q : list (string * Value)) :
  matches_key (Has (VMap r)) (VMap q) = matches r q.
Proof.
  unfold matches. destruct q as [|kv q']; [reflexivity|].
  change ((fix every (q : list (string * Value)) : bool :=
             match q with
             | [] => true
             | (key, qv) :: q0 => matches_key (js_get r key) qv && every q0
             end) (kv :: q')
          = forallb (fun kv => matches_key (js_get r (fst kv)) (snd kv))
              (kv :: q')).
  generalize (kv :: q') as l.
  induction l as [|[k x] l IH]; [reflexivity|].
  cbn. now rewrite IH.
Qed.

Lemma serial_match_map (r q : list (string * Value)) :
  serial_match_value (Some (VMap r)) (VMap q) <-> serial_matches r q.
Proof.
  unfold serial_matches. simpl.
  induction q as [|[k v] q IHq]; simpl; [split; auto|].
  rewrite Forall_cons_iff, IHq. reflexivity.
Qed.

Lemma matches_iff (record : Data) (query : Query) :
  proto_free query = true ->
  matches record query = true <-> serial_matches record query.
Proof.
  intros Hpf.
  rewrite <- matches_key_map, <- serial_match_map.
  apply (matches_key_serial (VMap query) (Has (VMap record)) Hpf).
  discriminate.
Qed.

Lemma Forall2_refl {A} (R : A -> A -> Prop) (l : list A) :
  Forall (fun x => R x x) l -> Forall2 R l l.
Proof.
  induction 1; constructor; assumption.
Qed.

(** The specification's equality holds of a value and itself. *)
Lemma value_eq_refl (v : Value) : value_eq v v.
Proof.
  induction v as [|b|n|s|l IH|m IH] using Value_nested_ind;
    try constructor.
  - now apply Forall2_refl.
  - apply value_eq_map with (m2' := m); [reflexivity|].
    apply Forall2_refl. rewrite Forall_forall in *. intros x Hx.
    split; [reflexivity | apply (IH x Hx)].
Qed.

(** What matches with lists compared as written matches under the
    specification's matcher. *)
Lemma serial_spec (qv : Value) :
  forall rv, serial_match_value rv qv -> spec_match_value rv qv.
Proof.
  induction qv as [|b|n|s|l _|q IH] using Value_nested_ind; intros rv;
    try (simpl; intros ->; apply value_eq_refl).
  destruct rv as [[|b'|n'|s'|l'|r]|]; simpl; try contradiction.
  induction IH as [|[k x] q' Hx _ IHq]; simpl; [auto|].
  intros [H1 H2]. split; [apply Hx, H1 | apply IHq, H2].
Qed.

Lemma serial_matches_spec (record : Data) (query : Query) :
  serial_matches record query -> spec_matches record query.
Proof.
  unfold serial_matches, spec_matches. rewrite !Forall_forall.
  intros H x Hx. apply serial_spec, H, Hx.
Qed.

(** Without a mapping in it, a value is equal to itself only. *)
Lemma value_eq_flat (a : Value) :
  no_mapping a = true -> forall b, value_eq a b -> a = b.
Proof.
  induction a as [|x|n|s|l IH|m _] using Value_nested_ind;
    intros Hf b H; inversion H; subst; try reflexivity; try discriminate.
  f_equal. simpl in Hf. rewrite forallb_forall in Hf.
  match goal with F : Forall2 value_eq l _ |- _ => rename F into H2 end.
  clear H. revert IH Hf.
  induction H2 as [|x y l l' Hxy _ IHl]; intros IH Hf; [reflexivity|].
  inversion IH as [|? ? Hx Hl]; subst.
  f_equal; [apply Hx; [apply Hf; now left | exact Hxy]|].
  apply IHl; [assumption|]. intros z Hz. apply Hf. now right.
Qed.

(** On a query whose lists hold no mapping, what the specification's
    matcher accepts matches with lists compared as written. *)
Lemma spec_serial (qv : Value) :
  lists_flat_value qv = true ->
  forall rv, spec_match_value rv qv -> serial_match_value rv qv.
Proof.
  induction qv as [|b|n|s|l _|q IH] using Value_nested_ind; intros Hf rv;
    try (destruct rv as [v|]; simpl; [|contradiction];
         intros H;
         match type of H with
         | value_eq ?a _ => now rewrite <- (value_eq_flat a Hf _ H)
         end).
  destruct rv as [[|b'|n'|s'|l'|r]|]; simpl; try contradiction.
  revert Hf. simpl.
  induction IH as [|[k x] q' Hx _ IHq]; simpl; [auto|].
  rewrite andb_true_iff. intros [Hfx Hfq] [H1 H2].
  split; [now apply Hx | now apply IHq].
Qed.

Lemma spec_match_map (r q : list (string * Value)) :
  spec_match_value (Some (VMap r)) (VMap q) <-> spec_matches r q.
Proof.
  unfold spec_matches. simpl.
  induction q as [|[k v] q IHq]; simpl; [split; auto|].
  rewrite Forall_cons_iff, IHq. reflexivity.
Qed.

Lemma spec_matches_serial (record : Data) (query : Query) :
  lists_flat query = true ->
  spec_matches record query -> serial_matches record query.
Proof.
  intros Hf H.
  apply serial_match_map.
  apply (spec_serial (VMap query) Hf (Some (VMap record))).
  now apply spec_match_map.
Qed.

(** [YAMLDriver.matchesQuery] holds when the text of every value of the
    query is the text of what the record shows under its key. *)
Lemma matchesQuery_texts (record : Data) (query : Query) :
  matchesQuery record query = true <->
  Forall (fun kv => JSON_stringify_read (js_get record (fst kv))
                    = Some (JSON_stringify (snd kv))) query.
Proof.
  induction query as [|[key value] query IH]; simpl.
  - split; auto.
  - rewrite Forall_cons_iff. simpl. rewrite <- IH.
    destruct (JSON_stringify_read (js_get record key)) as [t|]; simpl.
    + destruct (String.eqb_spec t (JSON_stringify value)) as [->|Hne]; simpl.
      * tauto.
      * split; [discriminate|]. intros [[= ->] _]. contradiction.
    + split; [discriminate | intros [[=] _]].
Qed.

Lemma stringify_read_own (rv : Read) (v : Value) :
  rv <> ObjectPrototype ->
  JSON_stringify_read rv = Some (JSON_stringify v) <-> own rv = Some v.
Proof.
  destruct rv as [x| | |]; simpl; intros H;
    try (split; congruence).
  split; [intros [= E]; apply JSON_stringify_inj in E; now subst
         | now intros [= ->]].
Qed.

Lemma matchesQuery_iff (record : Data) (query : Query) :
  Forall (fun kv => fst kv <> "__proto__") query ->
  matchesQuery record query = true <-> exact_matches record query.
Proof.
  intros Hk. rewrite matchesQuery_texts. unfold exact_matches.
  rewrite !Forall_forall in *. 
  split; intros H x Hx; specialize (H x Hx);
    destruct (js_get_own record (fst x) (Hk x Hx)) as [Hno Hown].
  - rewrite <- Hown. now apply stringify_read_own.
  - apply stringify_read_own; [assumption | now rewrite Hown].
Qed.

Lemma proto_free_keys (query : Query) :
  proto_free query = true -> Forall (fun kv => fst kv <> "__proto__") query.
Proof.
  unfold proto_free.
  induction query as [|[k v] query IH]; intros H; constructor.
  - now apply proto_free_cons in H.
  - apply IH. now apply proto_free_cons in H.
Qed.

End Matchers.

(** The matchers on the examples of the specification: equality on a
    scalar, subset on a nested mapping, exact equality on a list. *)
Example matches_scalar :
  map (fun r => matches r [("a", VNum 1)])
    [[("a", VNum 1)]; [("a", VNum 2)]; [("b", VNum 1)]]
  = [true; false; false]
  /\ map (fun r => matchesQuery r [("a", VNum 1)])
       [[("a", VNum 1)]; [("a", VNum 2)]; [("b", VNum 1)]]
     = [true; false; false].
Proof. split; reflexivity. Qed.

Example matches_list :
  map (fun r => matches r [("tags", VList [VNum 1; VNum 2])])
    [[("tags", VList [VNum 1; VNum 2])];
     [("tags", VList [VNum 1; VNum 2; VNum 3])];
     [("tags", VList [VNum 2; VNum 1])]]
  = [true; false; false]
  /\ map (fun r => matchesQuery r [("tags", VList [VNum 1; VNum 2])])
       [[("tags", VList [VNum 1; VNum 2])];
        [("tags", VList [VNum 1; VNum 2; VNum 3])];
        [("tags", VList [VNum 2; VNum 1])]]
     = [true; false; false].
Proof. split; reflexivity. Qed.

(** C1, as stated, fails on the YAML driver: the record satisfies the query
    under the specification's matcher, by subset on the nested mapping, and
    [YAMLDriver.matchesQuery] rejects it. *)
Lemma matchesQuery_rejects_subset :
  spec_matches record_abc query_ab /\ matchesQuery record_abc query_ab = false.
Proof.
  split; [|reflexivity].
  repeat constructor.
Qed.

(** Inside a list the JSON matcher compares texts, so that a mapping in a
    list matches only the mapping written with its fields in the same
    order, where the specification's equality of mappings has no order. *)
Lemma matches_list_key_order :
  spec_matches
    [("tags", VList [VMap [("a", VNum 1); ("b", VNum 2)]])]
    [("tags", VList [VMap [("b", VNum 2); ("a", VNum 1)]])]
  /\ matches
       [("tags", VList [VMap [("a", VNum 1); ("b", VNum 2)]])]
       [("tags", VList [VMap [("b", VNum 2); ("a", VNum 1)]])]
     = false.
Proof.
  split; [|reflexivity].
  constructor; [|constructor]. simpl.
  constructor. constructor; [|constructor].
  apply value_eq_map with (m2' := [("b", VNum 2); ("a", VNum 1)]).
  - apply perm_swap.
  - repeat constructor.
Qed.

(** Under the key [__proto__] a record that has no such field shows
    [Object.prototype], which both matchers take for an empty mapping. *)
Lemma proto_key_matches_without_field :
  obj_get record_a "__proto__" = None
  /\ matches record_a [("__proto__", VMap [])] = true
  /\ matchesQuery record_a [("__proto__", VMap [])] = true.
Proof. repeat split. Qed.

(** C1, amended: on a query with no key [__proto__], the empty query
    matches and every key of the query must match.  [JSONDriver.matches]
    matches a nested mapping by recursive subset, a scalar by equality and
    a list by the equality of the two texts, element by element in order
    and field by field in order inside the elements; what it accepts the
    specification's matcher accepts, and on a query whose lists hold no
    mapping it is the specification's matcher; it accepts
    [a = {b: 2, c: 99}] for [{a: {b: 2}}].  [YAMLDriver.matchesQuery]
    matches by equality of whole values at every key of the query, nested
    mappings included. *)
Theorem matchers_characterised (record : Data) (query : Query) :
  proto_free query = true ->
  (matches record query = true <-> serial_matches record query)
  /\ (matches record query = true -> spec_matches record query)
  /\ (lists_flat query = true ->
      (matches record query = true <-> spec_matches record query))
  /\ matches record [] = true
  /\ matches record_abc query_ab = true
  /\ (matchesQuery record query = true <-> exact_matches record query)
  /\ matchesQuery record [] = true.
Proof.
  intros Hpf.
  split; [now apply matches_iff|].
  split; [intros H; now apply serial_matches_spec, matches_iff|].
  split.
  { intros Hf. rewrite matches_iff by assumption.
    split; [apply serial_matches_spec | now apply spec_matches_serial]. }
  split; [reflexivity|].
  split; [reflexivity|].
  split; [apply matchesQuery_iff, proto_free_keys, Hpf | reflexivity].
Qed.

Lemma matchers_characterised_witness :
  (matches record_abc query_ab = true <-> serial_matches record_abc query_ab)
  /\ (matches record_abc query_ab = true -> spec_matches record_abc query_ab)
  /\ (lists_flat query_ab = true ->
      (matches record_abc query_ab = true
       <-> spec_matches record_abc query_ab))
  /\ matches record_abc [] = true
  /\ matches record_abc query_ab = true
  /\ (matchesQuery record_abc query_ab = true
      <-> exact_matches record_abc query_ab)
  /\ matchesQuery record_abc [] = true.
Proof.
  apply (matchers_characterised record_abc query_ab). reflexivity.
Defined.

(* ================================================================== *)
(** * Plain objects: reading back what was written *)

Section Objects.

Lemma obj_get_set (o : Data) (k k' : string) (v : Value) :
  obj_get (obj_set o k v) k' = if String.eqb k k' then Some v else obj_get o k'.
Proof.
  induction o as [|[k0 v0] o IH]; simpl.
  - reflexivity.
  - destruct (String.eqb_spec k0 k) as [->|Hk]; simpl.
    + now destruct (String.eqb k k').
    + rewrite IH.
      destruct (String.eqb_spec k0 k') as [->|Hk'];
        destruct (String.eqb_spec k k'); congruence.
Qed.

Lemma obj_get_del (o : Data) (k k' : string) :
  obj_get (obj_del o k) k' = if String.eqb k k' then None else obj_get o k'.
Proof.
  induction o as [|[k0 v0] o IH]; simpl.
  - now destruct (String.eqb k k').
  - destruct (String.eqb_spec k0 k) as [->|Hk]; simpl; rewrite IH.
    + now destruct (String.eqb_spec k k').
    + destruct (String.eqb_spec k0 k') as [->|Hk'];
        destruct (String.eqb_spec k k'); congruence.
Qed.

Lemma obj_get_put (o : Data) (k k' : string) (v : option Value) :
  obj_get (obj_put o k v) k' = if String.eqb k k' then v else obj_get o k'.
Proof.
  destruct v; simpl; [apply obj_get_set | apply obj_get_del].
Qed.

Lemma obj_get_absent (o : Data) (k : string) :
  ~ In k (map fst o) -> obj_get o k = None.
Proof.
  induction o as [|[k0 v0] o IH]; simpl; intros H; [reflexivity|].
  destruct (String.eqb_spec k0 k); [tauto | apply IH; tauto].
Qed.

Lemma obj_get_spread (src : Data) :
  wf_obj src ->
  forall o k,
    obj_get (spread o src) k
    = match obj_get src k with
      | Some v => Some v
      | None => obj_get o k
      end.
Proof.
  unfold wf_obj, spread.
  induction src as [|[k0 v0] src IH]; simpl; intros Hwf o k.
  - reflexivity.
  - inversion Hwf as [|? ? Hnotin Hwf']; subst.
    rewrite IH by assumption. rewrite obj_get_set.
    destruct (String.eqb_spec k0 k) as [<-|Hk].
    + now rewrite obj_get_absent.
    + reflexivity.
Qed.

Lemma obj_get_copy (o : Data) (k : string) :
  wf_obj o -> obj_get (spread [] o) k = obj_get o k.
Proof.
  intros H. rewrite obj_get_spread by assumption.
  now destruct (obj_get o k).
Qed.

Lemma yaml_merge_fields (patch old : Data) (now : string) :
  wf_obj patch -> wf_obj old ->
  merged_fields ["_id"; "_createdAt"] patch old (yaml_merge patch old now) now.
Proof.
  intros Hp Ho. unfold merged_fields, yaml_merge. repeat split.
  - rewrite obj_get_set. reflexivity.
  - intros k [<-|[<-|[]]]; rewrite obj_get_set, !obj_get_put; reflexivity.
  - intros k Hu Hf. simpl in Hf.
    rewrite obj_get_set, !obj_get_put.
    destruct (String.eqb_spec "_updatedAt" k); [congruence|].
    destruct (String.eqb_spec "_createdAt" k); [tauto|].
    destruct (String.eqb_spec "_id" k); [tauto|].
    rewrite obj_get_spread by assumption.
    now rewrite obj_get_copy.
Qed.

Lemma json_merge_fields (patch old : Data) (now : string) :
  wf_obj patch -> wf_obj old ->
  merged_fields [] patch old (json_merge patch old now) now.
Proof.
  intros Hp Ho. unfold merged_fields, json_merge. repeat split.
  - rewrite obj_get_set. reflexivity.
  - intros k [].
  - intros k Hu _. rewrite obj_get_set.
    destruct (String.eqb_spec "_updatedAt" k); [congruence|].
    rewrite obj_get_spread by assumption.
    now rewrite obj_get_copy.
Qed.

(** Every object the drivers build has each key once. *)

Lemma obj_set_keys (o : Data) (k k' : string) (v : Value) :
  In k' (map fst (obj_set o k v)) <-> k' = k \/ In k' (map fst o).
Proof.
  induction o as [|[k0 v0] o IH]; simpl.
  - intuition.
  - destruct (String.eqb_spec k0 k) as [->|Hk]; simpl.
    + intuition.
    + rewrite IH. intuition.
Qed.

Lemma obj_del_keys (o : Data) (k k' : string) :
  In k' (map fst (obj_del o k)) -> In k' (map fst o).
Proof.
  induction o as [|[k0 v0] o IH]; simpl; [auto|].
  destruct (String.eqb k0 k); simpl; intuition.
Qed.

Lemma obj_set_wf (o : Data) (k : string) (v : Value) :
  wf_obj o -> wf_obj (obj_set o k v).
Proof.
  unfold wf_obj.
  induction o as [|[k0 v0] o IH]; simpl; intros H.
  - repeat constructor. simpl. tauto.
  - inversion H as [|? ? Hnotin Hrest]; subst.
    destruct (String.eqb_spec k0 k) as [->|Hk]; simpl.
    + now constructor.
    + constructor; [|auto].
      rewrite obj_set_keys. intros [->|Hin]; tauto.
Qed.

Lemma obj_del_wf (o : Data) (k : string) : wf_obj o -> wf_obj (obj_del o k).
Proof.
  unfold wf_obj.
  induction o as [|[k0 v0] o IH]; simpl; intros H; [assumption|].
  inversion H as [|? ? Hnotin Hrest]; subst.
  destruct (String.eqb k0 k); simpl; [auto|].
  constructor; [|auto]. intros Hin. now apply obj_del_keys in Hin.
Qed.

Lemma obj_put_wf (o : Data) (k : string) (v : option Value) :
  wf_obj o -> wf_obj (obj_put o k v).
Proof. destruct v; simpl; auto using obj_set_wf, obj_del_wf. Qed.

Lemma spread_wf (src : Data) : forall o, wf_obj o -> wf_obj (spread o src).
Proof.
  unfold spread.
  induction src as [|[k v] src IH]; simpl; intros o H; [assumption|].
  apply IH, obj_set_wf, H.
Qed.

Lemma wf_empty : wf_obj [].
Proof. constructor. Qed.

Lemma json_merge_wf (patch old : Data) (now : string) :
  wf_obj (json_merge patch old now).
Proof.
  unfold json_merge. auto using obj_set_wf, spread_wf, wf_empty.
Qed.

Lemma yaml_merge_wf (patch old : Data) (now : string) :
  wf_obj (yaml_merge patch old now).
Proof.
  unfold yaml_merge.
  auto 8 using obj_set_wf, obj_put_wf, spread_wf, wf_empty.
Qed.

End Objects.

(* ================================================================== *)
(** * The loop of [update] *)

Section UpdateLoop.

Variable matcher : Data -> bool.
Variable merge : Data -> string -> Data.

Lemma advance_0 (w : World) : advance 0 w = w.
Proof. now destruct w. Qed.

Lemma update_loop_runs (rs : list Data) :
  forall w,
    exists out,
      update_loop matcher merge rs w
      = Ok (out, List.length (filter matcher rs))
           (advance (List.length (filter matcher rs)) w)
      /\ Forall2
           (fun r r' =>
              if matcher r
              then exists k,
                  ticks w <= k < ticks w + List.length (filter matcher rs)
                  /\ r' = merge r (clock w k)
              else r' = r)
           rs out.
Proof.
  induction rs as [|r rs IH]; intros w; simpl.
  - exists []. rewrite advance_0. split; [reflexivity | constructor].
  - destruct (matcher r) eqn:Hm.
    + unfold bind at 1. simpl.
      destruct (IH (advance 1 w)) as (out & E & F).
      change (mkWorld (file w) (writable w) (written w) (clock w)
                (S (ticks w)) (ids w) (drawn w)) with (advance 1 w).
      unfold bind at 1. rewrite E. simpl.
      exists (merge r (clock w (ticks w)) :: out). split.
      * unfold ret, advance. simpl. do 2 f_equal. lia.
      * constructor.
        -- rewrite Hm. exists (ticks w). split; [lia | reflexivity].
        -- eapply Forall2_impl; [|exact F].
           intros a b. simpl. destruct (matcher a); [|auto].
           intros (k & Hk & ->). exists k. split; [lia | reflexivity].
    + destruct (IH w) as (out & E & F).
      unfold bind at 1. rewrite E. simpl.
      exists (r :: out). split; [reflexivity|].
      constructor; [now rewrite Hm | exact F].
Qed.

Lemma update_loop_wf (rs : list Data) (w : World) :
  (forall r now, wf_obj (merge r now)) ->
  Forall wf_obj rs ->
  forall out n w',
    update_loop matcher merge rs w = Ok (out, n) w' -> Forall wf_obj out.
Proof.
  intros Hmerge Hwf out n w' E.
  destruct (update_loop_runs rs w) as (out' & E' & F).
  rewrite E' in E. injection E as <- _ _.
  assert (F' : Forall2
                 (fun r r' =>
                    if matcher r then exists now, r' = merge r now else r' = r)
                 rs out').
  { eapply Forall2_impl; [|exact F].
    intros a b. simpl. destruct (matcher a); [|auto].
    intros (k & _ & ->). eauto. }
  clear E' F. induction F' as [|r r' old new Hr F IH]; constructor.
  - inversion Hwf; subst.
    destruct (matcher r); [destruct Hr as (now & ->); apply Hmerge | now subst].
  - inversion Hwf; subst. auto.
Qed.

End UpdateLoop.

(* ================================================================== *)
(** * [update] *)

Ltac run :=
  cbv [connect disconnect set get getOne update delete exists_ count clear
       reload dispatch lift bind ret gets modify when throw
       JSONDriver1.connect JSONDriver1.disconnect JSONDriver1.set
       JSONDriver1.get JSONDriver1.getOne JSONDriver1.update
       JSONDriver1.delete JSONDriver1.exists_ JSONDriver1.count
       JSONDriver1.clear JSONDriver1.flush
       JSONDriver2.connect JSONDriver2.disconnect JSONDriver2.set
       JSONDriver2.get JSONDriver2.getOne JSONDriver2.update
       JSONDriver2.delete JSONDriver2.exists_ JSONDriver2.count
       JSONDriver2.clear JSONDriver2.save JSONDriver2.drop JSONDriver2.reload
       YAMLDriver1.connect YAMLDriver1.disconnect YAMLDriver1.set
       YAMLDriver1.get YAMLDriver1.getOne YAMLDriver1.update
       YAMLDriver1.delete YAMLDriver1.exists_ YAMLDriver1.count
       YAMLDriver1.clear YAMLDriver1.save YAMLDriver1.drop YAMLDriver1.reload
       YAMLDriver2.connect YAMLDriver2.disconnect YAMLDriver2.set
       YAMLDriver2.get YAMLDriver2.getOne YAMLDriver2.update
       YAMLDriver2.delete YAMLDriver2.exists_ YAMLDriver2.count
       YAMLDriver2.clear YAMLDriver2.save YAMLDriver2.drop YAMLDriver2.reload
       JSONDriver1.io JSONDriver1.set_records JSONDriver1.persist
       JSONDriver2.io JSONDriver2.set_data JSONDriver2.set_isConnected
       JSONDriver2.ensureConnected JSONDriver2.saveToFile
       YAMLDriver1.io YAMLDriver1.set_data YAMLDriver1.set_isConnected
       YAMLDriver1.ensureConnected YAMLDriver1.saveToFile
       YAMLDriver2.io YAMLDriver2.set_data YAMLDriver2.set_isConnected
       YAMLDriver2.ensureConnected YAMLDriver2.saveToFile];
  cbn [JSONDriver1.records JSONDriver1.autoSave JSONDriver1.world
       JSONDriver2.data JSONDriver2.isConnected JSONDriver2.world
       YAMLDriver1.data YAMLDriver1.isConnected YAMLDriver1.world
       YAMLDriver1.autoSave
       YAMLDriver2.data YAMLDriver2.isConnected YAMLDriver2.world
       collection world_of connected gated is_yaml matcher_of forced_fields
       autoSaveMode state_of fst snd].

Lemma updated_of_loop (matcher : Data -> bool) (merge : Data -> string -> Data)
    (forced : list string) (patch : Data) (w : World) (n : nat)
    (old new : list Data) :
  (forall r now, wf_obj r -> merged_fields forced patch r (merge r now) now) ->
  Forall wf_obj old ->
  Forall2
    (fun r r' =>
       if matcher r
       then exists k, ticks w <= k < ticks w + n /\ r' = merge r (clock w k)
       else r' = r)
    old new ->
  updated matcher forced patch w n old new.
Proof.
  intros Hmerge Hwf F. unfold updated.
  induction F as [|r r' old new Hr F IH]; constructor.
  - inversion Hwf; subst. destruct (matcher r); [|assumption].
    destruct Hr as (k & Hk & ->). exists k. auto.
  - inversion Hwf; subst. auto.
Qed.

(** C2, as stated, fails on the JSON driver: a patch that carries [_id]
    overwrites the [_id] of the record it updates. *)
Lemma json_update_overwrites_id :
  exists i',
    update [] [("_id", VStr "x")] json2_a = Ok 1 i'
    /\ map (fun r => obj_get r "_id") (collection json2_a) = [Some (VStr "a")]
    /\ map (fun r => obj_get r "_id") (collection i') = [Some (VStr "x")].
Proof. eexists. repeat split. Qed.

(** C2, amended: on a connected instance whose writer works, [update]
    returns the number of matching records and replaces each of them, in
    place, by the merge of the patch over its fields with [_updatedAt] read
    off the clock during the call; the records that do not match are
    unchanged and keep their positions.  The YAML driver forces [_id] and
    [_createdAt] to their prior values; the JSON driver forces no field, so
    a patch may overwrite both. *)
Theorem update_merges (i : Driver) (query : Query) (patch : Data) :
  connected i = true ->
  writable (world_of i) = true ->
  wf_obj patch ->
  Forall wf_obj (collection i) ->
  let n := List.length (filter (fun r => matcher_of i r query) (collection i)) in
  exists i',
    update query patch i = Ok n i'
    /\ updated (fun r => matcher_of i r query) (forced_fields i) patch
         (world_of i) n (collection i) (collection i').
Proof.
  intros Hc Hw Hp Hwf n. subst n.
  destruct i as [s|s|s|s]; destruct s; cbn in Hc, Hw, Hwf; subst; run;
    match goal with
    | |- context [update_loop ?m ?g ?rs ?w] =>
        destruct (update_loop_runs m g rs w) as (out & E & F); rewrite E
    end;
    cbn; unfold write, advance; cbn; rewrite ?Hw; cbn;
    repeat (match goal with
            | |- context [if ?b then _ else _] => destruct b
            end; cbn; rewrite ?Hw; cbn);
    eexists; (split; [reflexivity|]); cbn;
    eapply updated_of_loop; eauto using json_merge_fields, yaml_merge_fields.
Qed.

Lemma update_merges_witness :
  exists i',
    update [] patch_id yaml1_a = Ok 1 i'
    /\ updated (fun r => matchesQuery r []) ["_id"; "_createdAt"] patch_id
         world0 1 (collection yaml1_a) (collection i').
Proof.
  apply (update_merges yaml1_a [] patch_id).
  - reflexivity.
  - reflexivity.
  - unfold wf_obj. simpl. repeat constructor; simpl; intuition discriminate.
  - repeat constructor; simpl; intuition discriminate.
Defined.

(* ================================================================== *)
(** * The gate *)

(** C3, as stated, fails on the first [JSONDriver]: it has no gate, and
    [set] on an instance that was never connected succeeds and stores the
    record. *)
Lemma json1_set_before_connect :
  exists record i',
    set [("a", VNum 1)] (JSON1 (JSONDriver1.create true world0)) = Ok record i'
    /\ collection (JSON1 (JSONDriver1.create true world0)) = []
    /\ collection i' = [record].
Proof. do 2 eexists. repeat split. Qed.

(** C3, amended: on an instance of a class that has the gate (the second
    [JSONDriver] and both [YAMLDriver]s) which is not connected, each of
    [set], [get], [update], [delete], [exists] and [count] throws the
    not-connected error and leaves the instance, its collection included,
    as it was.  The first [JSONDriver] has no gate. *)
Theorem gate_closed (i : Driver) (query : Query) (d : Data) :
  gated i = true ->
  connected i = false ->
  set d i = Throw NotConnected i
  /\ get query i = Throw NotConnected i
  /\ update query d i = Throw NotConnected i
  /\ delete query i = Throw NotConnected i
  /\ exists_ query i = Throw NotConnected i
  /\ count query i = Throw NotConnected i.
Proof.
  intros Hg Hc.
  destruct i as [s|s|s|s]; try discriminate Hg;
    destruct s; cbn in Hc; subst; repeat split.
Qed.

Lemma gate_closed_witness :
  set record_a (YAML1 (YAMLDriver1.create None world0))
  = Throw NotConnected (YAML1 (YAMLDriver1.create None world0))
  /\ get [] (YAML1 (YAMLDriver1.create None world0))
     = Throw NotConnected (YAML1 (YAMLDriver1.create None world0))
  /\ update [] record_a (YAML1 (YAMLDriver1.create None world0))
     = Throw NotConnected (YAML1 (YAMLDriver1.create None world0))
  /\ delete [] (YAML1 (YAMLDriver1.create None world0))
     = Throw NotConnected (YAML1 (YAMLDriver1.create None world0))
  /\ exists_ [] (YAML1 (YAMLDriver1.create None world0))
     = Throw NotConnected (YAML1 (YAMLDriver1.create None world0))
  /\ count [] (YAML1 (YAMLDriver1.create None world0))
     = Throw NotConnected (YAML1 (YAMLDriver1.create None world0)).
Proof.
  apply (gate_closed (YAML1 (YAMLDriver1.create None world0)) [] record_a);
    reflexivity.
Defined.

(* ================================================================== *)
(** * A backing file the decoder rejects *)

(** C4, as stated, fails on the JSON driver: [connect] does not swallow the
    decode failure, it rethrows every error but a missing file. *)
Lemma json_connect_rethrows :
  connect (JSON2 (JSONDriver2.create world_bad))
  = Throw ParseError (JSON2 (JSONDriver2.create world_bad))
  /\ connect (JSON1 (JSONDriver1.create true world_bad))
     = Throw ParseError (JSON1 (JSONDriver1.create true world_bad)).
Proof. split; reflexivity. Qed.

(** C4, amended: when the decoder rejects the backing file, [reload] on a
    connected instance throws the parse error and leaves the instance as it
    was; [connect] of the YAML driver swallows the failure and leaves the
    instance connected with an empty collection, and [connect] of the JSON
    driver throws the parse error. *)
Theorem malformed_file (i : Driver) :
  file (world_of i) = Malformed ->
  (gated i = true -> connected i = true -> reload i = Throw ParseError i)
  /\ (if is_yaml i
      then exists i',
          connect i = Ok tt i' /\ collection i' = [] /\ connected i' = true
      else connect i = Throw ParseError i).
Proof.
  intros Hf.
  destruct i as [s|s|s|s]; destruct s; cbn in Hf; run; split;
    try discriminate; intros; subst; cbn; rewrite ?Hf;
    try reflexivity; eexists; repeat split.
Qed.

Lemma malformed_file_witness :
  reload yaml1_bad = Throw ParseError yaml1_bad
  /\ (exists i',
         connect yaml1_bad = Ok tt i'
         /\ collection i' = [] /\ connected i' = true).
Proof.
  destruct (malformed_file yaml1_bad eq_refl) as [Hreload Hconnect].
  split; [apply Hreload; reflexivity | exact Hconnect].
Defined.

(* ================================================================== *)
(** * [set] *)

Lemma system_field_false (k : string) :
  system_field k = false ->
  String.eqb "_id" k = false /\ String.eqb "_createdAt" k = false
  /\ String.eqb "_updatedAt" k = false.
Proof.
  unfold system_field. rewrite !orb_false_iff.
  rewrite !(String.eqb_sym k). tauto.
Qed.

(** C5, as stated, fails on the first [JSONDriver]: [set] assigns no
    [_id]. *)
Lemma json1_set_without_id :
  exists record i',
    set [("a", VNum 1)] json1_a = Ok record i'
    /\ obj_get record "_id" = None.
Proof. do 2 eexists. split; reflexivity. Qed.

(** C5, amended: on a connected instance whose writer works, [set]
    appends exactly one record at the end of the collection and returns it;
    the record has every field of the input other than [_id], [_createdAt]
    and [_updatedAt] with the input's value, [_createdAt] and [_updatedAt]
    are the two readings of the clock the call takes, one after the other,
    and [_id] is generated by the YAML driver, is the caller's truthy
    [_id] or else generated by the second [JSONDriver], and is not assigned
    by the first [JSONDriver]. *)
Theorem set_appends (i : Driver) (d : Data) :
  connected i = true ->
  writable (world_of i) = true ->
  wf_obj d ->
  exists record i',
    set d i = Ok record i'
    /\ collection i' = collection i ++ [record]
    /\ (forall k, system_field k = false -> obj_get record k = obj_get d k)
    /\ obj_get record "_id" = assigned_id i d
    /\ obj_get record "_createdAt"
       = Some (VStr (clock (world_of i) (ticks (world_of i))))
    /\ obj_get record "_updatedAt"
       = Some (VStr (clock (world_of i) (S (ticks (world_of i))))).
Proof.
  intros Hc Hw Hd.
  destruct i as [s|s|s|s]; destruct s; cbn in Hc, Hw; subst; run;
    unfold assigned_id, generateId, newDate, write; cbn;
    repeat (match goal with
            | |- context [if ?b then _ else _] => destruct b eqn:?
            end; cbn; rewrite ?Hw; cbn);
    do 2 eexists; (split; [reflexivity|]); cbn;
    (split; [reflexivity|]);
    (split; [intros k Hk; apply system_field_false in Hk;
             destruct Hk as (K1 & K2 & K3);
             rewrite ?obj_get_set, ?obj_get_put, ?K1, ?K2, ?K3;
             now apply obj_get_copy|]);
    rewrite ?obj_get_set, ?obj_get_put; cbn;
    repeat split; auto using obj_get_copy.
Qed.

Lemma wf_data_with_id : wf_obj data_with_id.
Proof. unfold wf_obj. simpl. repeat constructor; simpl; intuition discriminate. Defined.

Lemma set_appends_witness :
  exists record i',
    set data_with_id yaml1_a = Ok record i'
    /\ collection i' = collection yaml1_a ++ [record]
    /\ (forall k, system_field k = false ->
                  obj_get record k = obj_get data_with_id k)
    /\ obj_get record "_id" = assigned_id yaml1_a data_with_id
    /\ obj_get record "_createdAt" = Some (VStr (clock0 0))
    /\ obj_get record "_updatedAt" = Some (VStr (clock0 1)).
Proof.
  apply (set_appends yaml1_a data_with_id);
    [reflexivity | reflexivity | exact wf_data_with_id].
Defined.

(** C9: on a connected instance of the YAML driver, [set] stores a record
    whose [_id] is the identifier it generates, whatever [_id] the input
    carries, and returns that record. *)
Theorem yaml_set_fresh_id (i : Driver) (d : Data) (supplied : Value) :
  is_yaml i = true ->
  connected i = true ->
  obj_get d "_id" = Some supplied ->
  exists record,
    collection (state_of (set d i)) = collection i ++ [record]
    /\ obj_get record "_id"
       = Some (VStr (ids (world_of i) (drawn (world_of i))))
    /\ (forall r i', set d i = Ok r i' -> r = record)
    /\ (writable (world_of i) = true -> exists i', set d i = Ok record i').
Proof.
  intros Hy Hc _.
  destruct i as [s|s|s|s]; try discriminate Hy;
    destruct s; cbn in Hc; subst; run;
    unfold generateId, newDate, write; cbn;
    repeat (match goal with
            | |- context [if ?b then _ else _] => destruct b eqn:?
            end; cbn);
    eexists; (split; [reflexivity|]);
    (split; [now rewrite !obj_get_set|]);
    (split; [intros r i' E; congruence|]);
    intros W; try discriminate W; eexists; reflexivity.
Qed.

Lemma yaml_set_fresh_id_witness :
  exists record,
    collection (state_of (set data_with_id yaml2_a))
    = collection yaml2_a ++ [record]
    /\ obj_get record "_id" = Some (VStr (ids0 0))
    /\ (forall r i', set data_with_id yaml2_a = Ok r i' -> r = record)
    /\ (writable (world_of yaml2_a) = true ->
        exists i', set data_with_id yaml2_a = Ok record i').
Proof.
  apply (yaml_set_fresh_id yaml2_a data_with_id (VStr "mine"));
    reflexivity.
Defined.

(* ================================================================== *)
(** * Persistence in autoSave mode *)






(* ================================================================== *)
(** * [disconnect] *)

(** C8, as stated, fails on every class with the gate: [disconnect] closes
    the gate and keeps [this.data], so the instance still holds its
    records. *)
Lemma disconnect_keeps_data :
  exists i',
    disconnect yaml1_a = Ok tt i'
    /\ connected i' = false
    /\ collection i' = [record_a].
Proof. eexists. repeat split. Qed.

(** C8, amended: when the writer works, [disconnect] returns.  On a class
    with the gate it leaves the instance disconnected and its in-memory
    collection as it was; the first [JSONDriver], which has no gate,
    empties its collection.  Before that, the first [JSONDriver], and the
    [YAMLDriver] with the option when [autoSave] is on, hand the full
    collection to the writer; the other instances leave the backing file
    as it was. *)
Theorem disconnect_closes (i : Driver) :
  writable (world_of i) = true ->
  exists i',
    disconnect i = Ok tt i'
    /\ (if gated i
        then connected i' = false /\ collection i' = collection i
        else collection i' = [])
    /\ (if saves_on_disconnect i
        then written (world_of i') = written (world_of i) ++ [collection i]
             /\ file (world_of i') = encode (collection i)
        else untouched (world_of i) (world_of i')).
Proof.
  intros Hw.
  destruct i as [s|s|s|s]; destruct s; cbn in Hw; run;
    unfold write, untouched; cbn;
    rewrite ?Hw; cbn;
    repeat (match goal with
            | |- context [if ?b then _ else _] => destruct b eqn:?
            end; cbn; rewrite ?Hw; cbn);
    eexists; repeat split.
Qed.

Lemma disconnect_closes_witness :
  exists i',
    disconnect json1_a = Ok tt i'
    /\ collection i' = []
    /\ written (world_of i') = written (world_of json1_a) ++ [collection json1_a]
       /\ file (world_of i') = encode (collection json1_a).
Proof. apply (disconnect_closes json1_a). reflexivity. Defined.

(* ================================================================== *)
(** * [reload] without a backing file *)

(** C10: on a connected instance of the YAML driver whose backing file
    does not exist, [reload] returns and leaves the instance, its
    in-memory collection included, exactly as it was. *)
Theorem yaml_reload_absent (i : Driver) :
  is_yaml i = true ->
  connected i = true ->
  file (world_of i) = Absent ->
  reload i = Ok tt i
  /\ collection (state_of (reload i)) = collection i.
Proof.
  intros Hy Hc Hf.
  destruct i as [s|s|s|s]; try discriminate Hy;
    destruct s; cbn in Hc, Hf; subst; run; rewrite Hf; split; reflexivity.
Qed.

Lemma yaml_reload_absent_witness :
  reload yaml1_a = Ok tt yaml1_a
  /\ collection (state_of (reload yaml1_a)) = collection yaml1_a.
Proof. apply (yaml_reload_absent yaml1_a); reflexivity. Defined.

(** The JSON driver, for contrast, empties the collection. *)
Lemma json_reload_absent :
  exists i', reload json2_a = Ok tt i' /\ collection i' = [].
Proof. eexists. split; reflexivity. Qed.

(* ================================================================== *)
(** * [get]: a new array of the same records *)

Section Get.

Lemma filter_all {A} (f : A -> bool) (l : list A) :
  (forall x, f x = true) -> filter f l = l.
Proof.
  intros H. induction l as [|x l IH]; simpl; [reflexivity|].
  now rewrite H, IH.
Qed.

Lemma matcher_of_empty (i : Driver) (record : Data) :
  matcher_of i record [] = true.
Proof. unfold matcher_of. now destruct (is_yaml i). Qed.

Lemma get_filters (i : Driver) (query : Query) :
  connected i = true ->
  get query i
  = Ok (filter (fun record => matcher_of i record query) (collection i)) i.
Proof.
  intros Hc.
  destruct i as [s|s|s|s]; destruct s; cbn in Hc; subst; run;
    try reflexivity;
    (destruct query; [|reflexivity]); cbn;
    now rewrite filter_all.
Qed.








End Get.




Lemma push_view (record : Data) (st : Refs.Store) :
  Forall (fun r => r < List.length (Refs.heap st)) (Refs.data st) ->
  Refs.view (snd (Refs.push record st)) = Refs.view st ++ [record]
  /\ Refs.deref (Refs.heap (snd (Refs.push record st)))
       (fst (Refs.push record st)) = record.
Proof.
  intros Hvalid. unfold Refs.view, Refs.push, Refs.deref. simpl.
  rewrite map_app. simpl. rewrite nth_middle. split; [|reflexivity].
  f_equal. apply map_ext_in. intros r Hr.
  rewrite Forall_forall in Hvalid. apply app_nth1, Hvalid, Hr.
Qed.

(* ================================================================== *)
(** * The records of a collection stay well formed *)

(** [set] and [update] store objects that have each key once, whatever the
    input: the hypothesis of [update_merges] on the collection is an
    invariant of the store. *)
Lemma records_stay_wf (i : Driver) (query : Query) (d : Data) :
  Forall wf_obj (collection i) ->
  Forall wf_obj (collection (state_of (set d i)))
  /\ Forall wf_obj (collection (state_of (update query d i))).
Proof.
  intros Hwf.
  destruct i as [s|s|s|s]; destruct s; cbn in Hwf; run;
    unfold generateId, newDate, write; cbn; split;
    repeat (match goal with
            | |- context [if ?b then _ else _] => is_var b; destruct b
            end; cbn);
    try match goal with
      | |- context [update_loop ?m ?g ?rs ?w] =>
          pose proof (update_loop_wf m g rs w) as Hloop;
          destruct (update_loop_runs m g rs w) as (out & E & F);
          rewrite E in *;
          assert (Forall wf_obj out)
            by (eapply Hloop; eauto using json_merge_wf, yaml_merge_wf);
          unfold advance; cbn
      end;
    repeat (match goal with
            | |- context [if ?b then _ else _] => destruct b eqn:?
            end; cbn);
    try assumption;
    apply Forall_app; (split; [assumption|]);
    repeat constructor;
    auto 8 using obj_set_wf, obj_put_wf, spread_wf, wf_empty.
Qed.

(* ================================================================== *)
(* ================================================================== *)
(** * Further properties of the drivers *)

Ltac run_more := cbv [save drop getAllData with_collection]; run.

Section Lists.

Context {A : Type} (f : A -> bool).

Lemma filter_split_length (l : list A) :
  List.length l - List.length (filter (fun x => negb (f x)) l)
  = List.length (filter f l).
Proof.
  pose proof (filter_length f l). lia.
Qed.

Lemma filter_none (l : list A) :
  Forall (fun x => f x = false) l -> filter f l = [].
Proof.
  induction 1 as [|x l Hx _ IH]; simpl; [reflexivity|]. now rewrite Hx.
Qed.

Lemma filter_filter_negb (l : list A) :
  filter f (filter (fun x => negb (f x)) l) = [].
Proof.
  apply filter_none. rewrite Forall_forall. intros x Hx.
  apply filter_In in Hx. destruct Hx as [_ Hx]. now destruct (f x).
Qed.

Lemma find_filter (l : list A) : find f l = hd_error (filter f l).
Proof.
  induction l as [|x l IH]; simpl; [reflexivity|].
  destruct (f x); [reflexivity | exact IH].
Qed.

Lemma existsb_filter (l : list A) :
  existsb f l = match filter f l with [] => false | _ => true end.
Proof.
  induction l as [|x l IH]; simpl; [reflexivity|].
  destruct (f x); [reflexivity | exact IH].
Qed.

End Lists.

(* ------------------------------------------------------------------ *)
(** ** The read operations *)

(** A call leaves an instance of the class it was made on. *)
Lemma dispatch_class {A} (j1 : M JSONDriver1.State A)
    (j2 : M JSONDriver2.State A) (y1 : M YAMLDriver1.State A)
    (y2 : M YAMLDriver2.State A) (i : Driver) :
  is_yaml (state_of (dispatch j1 j2 y1 y2 i)) = is_yaml i
  /\ gated (state_of (dispatch j1 j2 y1 y2 i)) = gated i.
Proof.
  destruct i as [s|s|s|s]; cbn;
    [destruct (j1 s)|destruct (j2 s)|destruct (y1 s)|destruct (y2 s)];
    split; reflexivity.
Qed.

Lemma count_filters (i : Driver) (query : Query) :
  connected i = true ->
  count query i
  = Ok (List.length (filter (fun r => matcher_of i r query) (collection i))) i.
Proof.
  intros Hc.
  destruct i as [s|s|s|s]; destruct s; cbn in Hc; subst; run;
    try reflexivity;
    (destruct query; [cbn; rewrite filter_all by (intro; reflexivity)|];
     reflexivity).
Qed.

Lemma exists_filters (i : Driver) (query : Query) :
  connected i = true ->
  exists_ query i
  = Ok (match filter (fun r => matcher_of i r query) (collection i) with
        | [] => false
        | _ => true
        end) i.
Proof.
  intros Hc.
  destruct i as [s|s|s|s]; destruct s; cbn in Hc; subst; run;
    rewrite <- existsb_filter; reflexivity.
Qed.

Lemma getOne_filters (i : Driver) (query : Query) :
  connected i = true ->
  getOne query i
  = Ok (hd_error (filter (fun r => matcher_of i r query) (collection i))) i.
Proof.
  intros Hc.
  destruct i as [s|s|s|s]; destruct s; cbn in Hc; subst; run;
    rewrite <- ?find_filter; try reflexivity;
    (destruct query;
     [cbn; rewrite find_filter, filter_all by (intro; reflexivity)
     |cbn; rewrite find_filter]; reflexivity).
Qed.

(** X1: on a connected instance the four read operations agree and change
    nothing: [count] is the length of what [get] returns, [exists] tells
    whether it is non-empty, and [getOne] is its first element. *)
Theorem reads_agree (i : Driver) (query : Query) :
  connected i = true ->
  exists l,
    get query i = Ok l i
    /\ count query i = Ok (List.length l) i
    /\ exists_ query i = Ok (match l with [] => false | _ => true end) i
    /\ getOne query i = Ok (hd_error l) i.
Proof.
  intros Hc.
  exists (filter (fun r => matcher_of i r query) (collection i)).
  split; [now apply get_filters|].
  split; [now apply count_filters|].
  split; [now apply exists_filters|].
  now apply getOne_filters.
Qed.

Lemma reads_agree_witness :
  exists l,
    get [("n", VNum 1)] json2_a = Ok l json2_a
    /\ count [("n", VNum 1)] json2_a = Ok (List.length l) json2_a
    /\ exists_ [("n", VNum 1)] json2_a
       = Ok (match l with [] => false | _ => true end) json2_a
    /\ getOne [("n", VNum 1)] json2_a = Ok (hd_error l) json2_a.
Proof. apply (reads_agree json2_a [("n", VNum 1)]). reflexivity. Defined.

(* ------------------------------------------------------------------ *)
(** ** [delete] *)

(** What [delete] does to the collection, whether or not the save that may
    follow succeeds. *)
Lemma delete_outcome (i : Driver) (query : Query) :
  (connected i = false /\ delete query i = Throw NotConnected i)
  \/ (connected i = true
      /\ connected (state_of (delete query i)) = true
      /\ collection (state_of (delete query i))
         = filter (fun r => negb (matcher_of i r query)) (collection i)
      /\ forall n i', delete query i = Ok n i' ->
           n = List.length
                 (filter (fun r => matcher_of i r query) (collection i))).
Proof.
  destruct (connected i) eqn:Hc.
  - right.
    destruct i as [s|s|s|s]; destruct s; cbn in Hc; subst; run;
      unfold write; cbn;
      repeat (match goal with
              | |- context [if ?b then _ else _] => destruct b eqn:?
              end; cbn);
      repeat split; intros; try discriminate;
      match goal with
      | H : Ok _ _ = Ok _ _ |- _ => injection H as <- _
      end;
      first [apply (filter_split_length (fun r => matches r query))
            |apply (filter_split_length (fun r => matchesQuery r query))].
  - left.
    destruct i as [s|s|s|s]; destruct s; cbn in Hc; subst;
      try discriminate Hc; split; reflexivity.
Qed.

(** X2: on a connected instance whose writer works, [delete] removes
    exactly the records that match, keeps the others in their order, and
    returns the number of records removed. *)
Theorem delete_removes (i : Driver) (query : Query) :
  connected i = true ->
  writable (world_of i) = true ->
  exists i',
    delete query i
    = Ok (List.length (filter (fun r => matcher_of i r query) (collection i)))
         i'
    /\ collection i'
       = filter (fun r => negb (matcher_of i r query)) (collection i).
Proof.
  intros Hc Hw.
  destruct i as [s|s|s|s]; destruct s; cbn in Hc, Hw; subst; run;
    rewrite ?(filter_split_length (fun r => matches r query)),
      ?(filter_split_length (fun r => matchesQuery r query));
    unfold write; cbn; rewrite ?Hw;
    repeat (match goal with
            | |- context [if ?b then _ else _] => destruct b eqn:?
            end; cbn; rewrite ?Hw; cbn);
    eexists; split; reflexivity.
Qed.

Lemma delete_removes_witness :
  exists i',
    delete [("n", VNum 1)] yaml1_a = Ok 1 i' /\ collection i' = [].
Proof.
  apply (delete_removes yaml1_a [("n", VNum 1)]); reflexivity.
Defined.

(** X3: after a [delete] that returned, nothing matches the query any
    more: [get] is empty, [count] is zero, [exists] is false and [getOne]
    finds nothing. *)
Theorem delete_then_nothing_matches (i i' : Driver) (query : Query) (n : nat) :
  delete query i = Ok n i' ->
  get query i' = Ok [] i'
  /\ count query i' = Ok 0 i'
  /\ exists_ query i' = Ok false i'
  /\ getOne query i' = Ok None i'.
Proof.
  intros E.
  destruct (delete_outcome i query) as [[_ T]|(_ & Hc & Hcol & _)];
    [congruence|].
  assert (Hm : matcher_of i' = matcher_of i).
  { unfold matcher_of.
    pose proof (dispatch_class (JSONDriver1.delete query)
                  (JSONDriver2.delete query) (YAMLDriver1.delete query)
                  (YAMLDriver2.delete query) i) as [Hy _].
    fold (delete query) in Hy. rewrite E in Hy. cbn in Hy. now rewrite Hy. }
  rewrite E in Hc, Hcol. cbn in Hc, Hcol.
  rewrite (get_filters i' query Hc), (count_filters i' query Hc),
    (exists_filters i' query Hc), (getOne_filters i' query Hc).
  rewrite Hm, Hcol, filter_filter_negb. repeat split.
Qed.

Lemma delete_then_nothing_matches_witness :
  exists i',
    delete [("n", VNum 1)] json1_a = Ok 1 i'
    /\ get [("n", VNum 1)] i' = Ok [] i'
    /\ count [("n", VNum 1)] i' = Ok 0 i'
    /\ exists_ [("n", VNum 1)] i' = Ok false i'
    /\ getOne [("n", VNum 1)] i' = Ok None i'.
Proof.
  eexists. split; [reflexivity|].
  eapply (delete_then_nothing_matches json1_a _ [("n", VNum 1)] 1).
  reflexivity.
Defined.

(* ------------------------------------------------------------------ *)
(** ** The matchers *)

Lemma matches_key_missing (recordValue : Read) (queryValue : Value) :
  recordValue <> ObjectPrototype -> own recordValue = None ->
  matches_key recordValue queryValue = false.
Proof.
  destruct recordValue; simpl; try congruence; now destruct queryValue.
Qed.

(** X4: a record that lacks a key of the query, other than the key
    [__proto__] under which every object shows its prototype, matches under
    neither matcher, whatever value the query asks for, [null] included. *)
Theorem missing_field_never_matches (record : Data) (query : Query)
    (key : string) (value : Value) :
  obj_get record key = None ->
  key <> "__proto__" ->
  In (key, value) query ->
  matches record query = false /\ matchesQuery record query = false.
Proof.
  intros Hnone Hkey Hin.
  destruct (js_get_own record key Hkey) as [Hno Hown].
  rewrite Hnone in Hown. split.
  - destruct (matches record query) eqn:E; [|reflexivity].
    unfold matches in E. destruct query as [|kv q]; [contradiction|].
    rewrite forallb_forall in E. specialize (E _ Hin). cbn in E.
    now rewrite matches_key_missing in E.
  - destruct (matchesQuery record query) eqn:E; [|reflexivity].
    apply matchesQuery_texts in E.
    rewrite Forall_forall in E. specialize (E _ Hin). cbn in E.
    apply stringify_read_own in E; [congruence | assumption].
Qed.

Lemma missing_field_never_matches_witness :
  matches record_a [("n", VNum 1); ("gone", VNull)] = false
  /\ matchesQuery record_a [("n", VNum 1); ("gone", VNull)] = false.
Proof.
  apply (missing_field_never_matches record_a _ "gone" VNull).
  - reflexivity.
  - discriminate.
  - simpl. right. left. reflexivity.
Defined.

Lemma obj_get_in (o : Data) (k : string) (v : Value) :
  wf_obj o -> In (k, v) o -> obj_get o k = Some v.
Proof.
  unfold wf_obj.
  induction o as [|[k0 v0] o IH]; simpl; intros Hwf Hin; [contradiction|].
  inversion Hwf as [|? ? Hnotin Hrest]; subst.
  destruct Hin as [[= -> ->]|Hin].
  - now rewrite String.eqb_refl.
  - destruct (String.eqb_spec k0 k) as [->|_]; [|auto].
    exfalso. apply Hnotin. now apply (in_map fst) in Hin.
Qed.

Lemma wf_value_props (m : list (string * Value)) (k : string) (x : Value) :
  wf_value (VMap m) -> In (k, x) m -> wf_value x.
Proof.
  cbn. intros [_ Hprops] Hin.
  induction m as [|[k0 x0] m IH]; [contradiction|].
  destruct Hprops as [H0 Hrest].
  destruct Hin as [[= -> ->]|Hin]; auto.
Qed.

(** Under the JSON matcher a value satisfies itself as a query value. *)
Lemma matches_key_refl (v : Value) :
  wf_value v -> matches_key (Has v) v = true.
Proof.
  induction v as [|b|n|s|l _|m IH] using Value_nested_ind; intros Hwf.
  - reflexivity.
  - cbn. now destruct b.
  - cbn. apply Z.eqb_refl.
  - cbn. apply String.eqb_refl.
  - cbn. apply String.eqb_refl.
  - rewrite matches_key_map. unfold matches.
    destruct m as [|kv m'] eqn:Em; [reflexivity|]. rewrite <- Em in *.
    rewrite forallb_forall. intros [k x] Hin. cbn.
    rewrite (js_get_Has m k x (obj_get_in m k x (proj1 Hwf) Hin)).
    rewrite Forall_forall in IH.
    apply (IH (k, x) Hin), (wf_value_props m k x Hwf Hin).
Qed.

(** X5: a record used as a query finds itself, under both matchers. *)
Theorem record_matches_itself (record : Data) :
  wf_query record ->
  matches record record = true /\ matchesQuery record record = true.
Proof.
  intros [Hwf Hvals]. split.
  - unfold matches. destruct record as [|kv r] eqn:Er; [reflexivity|].
    rewrite <- Er in *. rewrite forallb_forall. intros [k v] Hin. cbn.
    rewrite (js_get_Has record k v (obj_get_in record k v Hwf Hin)).
    rewrite Forall_forall in Hvals. apply matches_key_refl, (Hvals _ Hin).
  - apply matchesQuery_texts. rewrite Forall_forall.
    intros [k v] Hin. cbn.
    now rewrite (js_get_Has record k v (obj_get_in record k v Hwf Hin)).
Qed.

Lemma wf_query_record_abc : wf_query record_abc.
Proof.
  split.
  - unfold wf_obj. simpl. repeat constructor; simpl; intuition discriminate.
  - repeat constructor; simpl; intuition discriminate.
Defined.

Lemma record_matches_itself_witness :
  matches record_abc record_abc = true
  /\ matchesQuery record_abc record_abc = true.
Proof. apply (record_matches_itself record_abc wf_query_record_abc). Defined.

(** X6: the YAML matcher is the stricter of the two: a record it accepts
    for a query, the JSON matcher accepts too. *)
Theorem matchesQuery_implies_matches (record : Data) (query : Query) :
  Forall (fun kv => wf_value (snd kv)) query ->
  matchesQuery record query = true ->
  matches record query = true.
Proof.
  intros Hvals E. apply matchesQuery_texts in E.
  unfold matches. destruct query as [|kv q] eqn:Eq; [reflexivity|].
  rewrite <- Eq in *. rewrite forallb_forall. intros [k v] Hin. cbn.
  rewrite Forall_forall in E, Hvals.
  pose proof (E _ Hin) as Ek. cbn in Ek.
  destruct (js_get record k) as [x| | |]; cbn in Ek; try discriminate.
  - injection Ek as Ek. apply JSON_stringify_inj in Ek. subst x.
    apply matches_key_refl, (Hvals _ Hin).
  - injection Ek as Ek.
    apply (JSON_stringify_inj (VMap []) v) in Ek. now subst v.
Qed.

Lemma matchesQuery_implies_matches_witness :
  matches record_a [("n", VNum 1)] = true.
Proof.
  apply (matchesQuery_implies_matches record_a [("n", VNum 1)]).
  - repeat constructor.
  - reflexivity.
Defined.

(* ------------------------------------------------------------------ *)
(** ** [connect] *)

Ltac split_ifs :=
  repeat (match goal with
          | |- context [if ?b then _ else _] => destruct b eqn:?
          end; cbn).

(** X7: [connect] when the backing file does not exist and the writer works
    leaves the instance connected with an empty collection, and creates the
    file holding the empty snapshot, except in the first [JSONDriver] with
    [autoSave] off, which leaves the file absent; a [get] of everything
    then returns the empty list. *)
Theorem connect_creates (i : Driver) :
  file (world_of i) = Absent ->
  writable (world_of i) = true ->
  exists i',
    connect i = Ok tt i'
    /\ collection i' = []
    /\ connected i' = true
    /\ get [] i' = Ok [] i'
    /\ file (world_of i')
       = (if autoSaveMode i || gated i then encode [] else Absent).
Proof.
  intros Hf Hw.
  assert (H : exists i',
             connect i = Ok tt i'
             /\ collection i' = []
             /\ connected i' = true
             /\ file (world_of i')
                = (if autoSaveMode i || gated i then encode [] else Absent)).
  { destruct i as [s|s|s|s]; destruct s;
      match goal with w : World |- _ => destruct w end;
      cbn in Hf, Hw; subst; run; cbn; unfold write; cbn;
      rewrite ?orb_true_r, ?orb_false_r; split_ifs; eexists; repeat split. }
  destruct H as (i' & E & Hcol & Hc & Hfile).
  exists i'. repeat split; auto.
  now rewrite (get_filters i' [] Hc), Hcol.
Qed.

Lemma connect_creates_witness :
  exists i',
    connect (YAML2 (YAMLDriver2.create world0)) = Ok tt i'
    /\ collection i' = []
    /\ connected i' = true
    /\ get [] i' = Ok [] i'
    /\ file (world_of i') = encode [].
Proof.
  apply (connect_creates (YAML2 (YAMLDriver2.create world0))); reflexivity.
Defined.

(** X8: when the writer fails, [connect] on a missing file throws any time
    it tries to create the file, and an instance of a class with the gate
    stays disconnected. *)
Theorem connect_write_failure (i : Driver) :
  file (world_of i) = Absent ->
  writable (world_of i) = false ->
  autoSaveMode i || gated i = true ->
  connected i = false \/ gated i = false ->
  exists i',
    connect i = Throw IOError i'
    /\ collection i' = []
    /\ (gated i = true -> connected i' = false)
    /\ file (world_of i') = Absent.
Proof.
  intros Hf Hw Hmode Hc.
  destruct i as [s|s|s|s]; destruct s;
    match goal with w : World |- _ => destruct w end;
    cbn in Hf, Hw, Hmode, Hc; rewrite ?orb_false_r in Hmode; subst;
    (destruct Hc as [Hc|Hc]; try discriminate Hc; subst);
    run; cbn; unfold write; cbn;
    eexists; repeat split; auto.
Qed.

Lemma connect_write_failure_witness :
  exists i',
    connect (JSON2 (JSONDriver2.create world_ro)) = Throw IOError i'
    /\ collection i' = []
    /\ (gated (JSON2 (JSONDriver2.create world_ro)) = true ->
        connected i' = false)
    /\ file (world_of i') = Absent.
Proof.
  apply (connect_write_failure (JSON2 (JSONDriver2.create world_ro)));
    try reflexivity.
  left. reflexivity.
Defined.

(** X9: what [connect] loads does not depend on what the instance held in
    memory: a [connect] that returns leaves the same instance whatever the
    collection before it, so records that were not saved are lost. *)
Theorem connect_discards_memory (i i' : Driver) (c : list Data) :
  connect i = Ok tt i' ->
  connect (with_collection c i) = Ok tt i'.
Proof.
  destruct i as [s|s|s|s]; destruct s; run_more;
    match goal with
    | |- context [match ?f with Absent => _ | Malformed => _ | Holds _ => _ end] =>
        destruct f as [| |parsed]
    end; cbn; unfold write; cbn;
    try (destruct (json_shape parsed)); cbn;
    split_ifs; intros E; try discriminate E; exact E.
Qed.

Lemma connect_discards_memory_witness :
  exists i',
    connect yaml2_a = Ok tt i'
    /\ connect (with_collection [] yaml2_a) = Ok tt i'
    /\ collection i' = [].
Proof.
  eexists. split; [reflexivity|]. split; [|reflexivity].
  apply (connect_discards_memory yaml2_a _ []). reflexivity.
Defined.

(** X10: a legacy snapshot, an object whose [records] property is an
    object: [connect] of the JSON driver loads the values of [records] in
    order and drops their keys, while [reload] of the same driver takes
    the file for no array and empties the collection. *)
Theorem json_legacy_snapshot (i : Driver) (m rs : list (string * Value)) :
  is_yaml i = false ->
  file (world_of i) = Holds (VMap m) ->
  obj_get m "records" = Some (VMap rs) ->
  (exists i',
      connect i = Ok tt i'
      /\ collection i' = map (fun kv => asData (snd kv)) rs)
  /\ (gated i = true -> connected i = true ->
      exists i', reload i = Ok tt i' /\ collection i' = []).
Proof.
  intros Hy Hf Hr.
  destruct i as [s|s|s|s]; try discriminate Hy;
    destruct s; match goal with w : World |- _ => destruct w end;
    cbn in Hf; subst; run; cbn; rewrite Hr; split;
    try discriminate; intros; subst; cbn; eexists; split; reflexivity.
Qed.

Lemma json_legacy_snapshot_witness :
  (exists i',
      connect (JSON2 (JSONDriver2.mkState [] true world_legacy)) = Ok tt i'
      /\ collection i' = [record_a; [("n", VNum 2)]])
  /\ (exists i',
         reload (JSON2 (JSONDriver2.mkState [] true world_legacy)) = Ok tt i'
         /\ collection i' = []).
Proof.
  destruct (json_legacy_snapshot
              (JSON2 (JSONDriver2.mkState [] true world_legacy))
              [("records", VMap [("k1", VMap record_a);
                                 ("k2", VMap [("n", VNum 2)])])]
              [("k1", VMap record_a); ("k2", VMap [("n", VNum 2)])]
              eq_refl eq_refl eq_refl) as [Hconnect Hreload].
  split; [exact Hconnect | apply Hreload; reflexivity].
Defined.

(** X11: a backing file that holds [null]: [connect] of the JSON driver
    throws a type error and leaves the instance as it was, [connect] of the
    YAML driver starts connected and empty, and [reload], where the class
    has it, empties the collection. *)
Theorem null_snapshot (i : Driver) :
  file (world_of i) = Holds VNull ->
  (if is_yaml i
   then exists i',
       connect i = Ok tt i' /\ collection i' = [] /\ connected i' = true
   else connect i = Throw TypeError i)
  /\ (gated i = true -> connected i = true ->
      exists i', reload i = Ok tt i' /\ collection i' = []).
Proof.
  intros Hf.
  destruct i as [s|s|s|s];
    destruct s; match goal with w : World |- _ => destruct w end;
    cbn in Hf; subst; run; cbn; split;
    try discriminate; intros; subst; cbn; try reflexivity;
    eexists; repeat split.
Qed.

Lemma null_snapshot_witness :
  connect (JSON1 (JSONDriver1.create true world_null))
  = Throw TypeError (JSON1 (JSONDriver1.create true world_null)).
Proof.
  apply (null_snapshot (JSON1 (JSONDriver1.create true world_null))).
  reflexivity.
Defined.

(* ------------------------------------------------------------------ *)
(** ** Persistence *)

Ltac open_state :=
  match goal with
  | i : Driver |- _ =>
      destruct i as [s|s|s|s]; destruct s;
      match goal with w : World |- _ => destruct w end
  end.

(** X12: memory is changed before the file is written: in autoSave mode,
    when the writer fails, [set] and [clear] throw, and yet the new record
    is in the collection, respectively the collection is empty, while the
    backing file is as it was. *)
Theorem write_failure_keeps_mutation (i : Driver) (d : Data) :
  connected i = true ->
  autoSaveMode i = true ->
  writable (world_of i) = false ->
  (exists record i',
      set d i = Throw IOError i'
      /\ collection i' = collection i ++ [record]
      /\ untouched (world_of i) (world_of i'))
  /\ (exists i',
         clear i = Throw IOError i'
         /\ collection i' = []
         /\ untouched (world_of i) (world_of i')).
Proof.
  intros Hc Ha Hw.
  open_state; cbn in Hc, Ha, Hw; subst; try discriminate Ha; run;
    unfold generateId, newDate, write, untouched; cbn; split_ifs; split;
    repeat eexists.
Qed.

Lemma write_failure_keeps_mutation_witness :
  (exists record i',
      set patch_id yaml1_ro = Throw IOError i'
      /\ collection i' = collection yaml1_ro ++ [record]
      /\ untouched (world_of yaml1_ro) (world_of i'))
  /\ (exists i',
         clear yaml1_ro = Throw IOError i'
         /\ collection i' = []
         /\ untouched (world_of yaml1_ro) (world_of i')).
Proof.
  apply (write_failure_keeps_mutation yaml1_ro patch_id); reflexivity.
Defined.

(** X13: in the manual mode ([autoSave] off, or the [YAMLDriver] without
    the option) [set], [update] and [delete] never touch the backing file,
    whatever they do to the collection. *)
Theorem manual_mode_never_writes (i : Driver) (query : Query) (d : Data) :
  autoSaveMode i = false ->
  untouched (world_of i) (world_of (state_of (set d i)))
  /\ untouched (world_of i) (world_of (state_of (update query d i)))
  /\ untouched (world_of i) (world_of (state_of (delete query i))).
Proof.
  intros Ha.
  open_state; cbn in Ha; subst; try discriminate Ha; run;
    unfold generateId, newDate, write, untouched; cbn;
    repeat (match goal with
            | |- context [if ?b then _ else _] => is_var b; destruct b
            end; cbn);
    try match goal with
      | |- context [update_loop ?m ?g ?rs ?w] =>
          destruct (update_loop_runs m g rs w) as (out & E & F); rewrite E;
          unfold advance; cbn
      end;
    rewrite ?andb_false_r; cbn; split_ifs; repeat split.
Qed.

Lemma manual_mode_never_writes_witness :
  untouched (world_of yaml1_manual)
    (world_of (state_of (set patch_id yaml1_manual)))
  /\ untouched (world_of yaml1_manual)
       (world_of (state_of (update [] patch_id yaml1_manual)))
  /\ untouched (world_of yaml1_manual)
       (world_of (state_of (delete [] yaml1_manual))).
Proof.
  apply (manual_mode_never_writes yaml1_manual [] patch_id). reflexivity.
Defined.

(** [save] ([flush] in the first [JSONDriver]) on a connected instance
    whose writer works hands the full collection to the writer whatever the
    mode, and leaves the collection as it was. *)
Lemma save_writes_collection (i : Driver) :
  connected i = true ->
  writable (world_of i) = true ->
  exists i',
    save i = Ok tt i'
    /\ collection i' = collection i
    /\ connected i' = true
    /\ saved i i'.
Proof.
  intros Hc Hw.
  open_state; cbn in Hc, Hw; subst; run_more; unfold write, saved; cbn;
    eexists; repeat split.
Qed.

(** X14: the manual workflow: in the manual mode, on a connected instance
    whose writer works, [set] stores the record in memory only, and the
    [save] ([flush] in the first [JSONDriver]) that follows hands the
    writer one snapshot, the earlier records followed by the new one,
    which is then what the file holds. *)
Theorem manual_set_then_save (i : Driver) (d : Data) :
  autoSaveMode i = false ->
  connected i = true ->
  writable (world_of i) = true ->
  exists record i1 i2,
    set d i = Ok record i1
    /\ untouched (world_of i) (world_of i1)
    /\ save i1 = Ok tt i2
    /\ collection i2 = collection i ++ [record]
    /\ written (world_of i2)
       = written (world_of i) ++ [collection i ++ [record]]
    /\ file (world_of i2) = encode (collection i ++ [record]).
Proof.
  intros Ha Hc Hw.
  open_state; cbn in Ha, Hc, Hw; subst; try discriminate Ha; run_more;
    unfold generateId, newDate, write, untouched; cbn;
    do 3 eexists; repeat split.
Qed.

Lemma manual_set_then_save_witness :
  exists record i1 i2,
    set patch_id json1_manual = Ok record i1
    /\ untouched (world_of json1_manual) (world_of i1)
    /\ save i1 = Ok tt i2
    /\ collection i2 = collection json1_manual ++ [record]
    /\ written (world_of i2)
       = written (world_of json1_manual)
         ++ [collection json1_manual ++ [record]]
    /\ file (world_of i2) = encode (collection json1_manual ++ [record]).
Proof.
  apply (manual_set_then_save json1_manual patch_id); reflexivity.
Defined.

(** X15: [clear] of the [YAMLDriver] with the option empties the
    collection and writes the empty snapshot whether [autoSave] is on or
    off. *)
Theorem yaml1_clear_always_saves (s : YAMLDriver1.State) :
  YAMLDriver1.isConnected s = true ->
  writable (YAMLDriver1.world s) = true ->
  exists s',
    YAMLDriver1.clear s = Ok tt s'
    /\ YAMLDriver1.data s' = []
    /\ YAMLDriver1.autoSave s' = YAMLDriver1.autoSave s
    /\ file (YAMLDriver1.world s') = encode []
    /\ written (YAMLDriver1.world s')
       = written (YAMLDriver1.world s) ++ [[]].
Proof.
  intros Hc Hw. destruct s as [a rs c w]. destruct w. cbn in Hc, Hw. subst.
  eexists. repeat split.
Qed.

Lemma yaml1_clear_always_saves_witness :
  exists s',
    YAMLDriver1.clear (YAMLDriver1.mkState false [record_a] true world0)
    = Ok tt s'
    /\ YAMLDriver1.data s' = []
    /\ YAMLDriver1.autoSave s' = false
    /\ file (YAMLDriver1.world s') = encode []
    /\ written (YAMLDriver1.world s') = [[]].
Proof.
  apply (yaml1_clear_always_saves
           (YAMLDriver1.mkState false [record_a] true world0)); reflexivity.
Defined.

(** X16: [drop] on a connected instance of a class that has it removes the
    backing file and empties the collection; it needs no writer, hands
    nothing to it, and leaves the instance connected. *)
Theorem drop_removes_file (i : Driver) :
  gated i = true ->
  connected i = true ->
  exists i',
    drop i = Ok tt i'
    /\ collection i' = []
    /\ connected i' = true
    /\ file (world_of i') = Absent
    /\ written (world_of i') = written (world_of i).
Proof.
  intros Hg Hc.
  open_state; try discriminate Hg; cbn in Hc; subst; run_more;
    unfold unlink; cbn;
    try match goal with
      | |- context [match ?f with Absent => _ | Malformed => _ | Holds _ => _ end] =>
          destruct f
      end; cbn;
    eexists; repeat split.
Qed.

Lemma drop_removes_file_witness :
  exists i',
    drop yaml1_bad = Ok tt i'
    /\ collection i' = []
    /\ connected i' = true
    /\ file (world_of i') = Absent
    /\ written (world_of i') = written (world_of yaml1_bad).
Proof. apply (drop_removes_file yaml1_bad); reflexivity. Defined.

Lemma asData_VMap (c : list Data) : map asData (map VMap c) = c.
Proof.
  induction c as [|r c IH]; simpl; [reflexivity | now rewrite IH].
Qed.

(** X17: what [save] writes, [connect] and [reload] read back: after a
    [save] that returned, a [connect] leaves the collection that was saved,
    and so does a [reload] where the class has it.  The snapshot is taken
    to decode to the array of records it was encoded from. *)
Theorem save_then_load (i : Driver) :
  connected i = true ->
  writable (world_of i) = true ->
  exists i1 i2,
    save i = Ok tt i1
    /\ connect i1 = Ok tt i2
    /\ collection i2 = collection i
    /\ (gated i = true -> reload i1 = Ok tt i1).
Proof.
  intros Hc Hw.
  open_state; cbn in Hc, Hw; subst; run_more; unfold write; cbn;
    do 2 eexists; (split; [reflexivity|]); cbn; rewrite asData_VMap;
    repeat split; discriminate.
Qed.

Lemma save_then_load_witness :
  exists i1 i2,
    save json2_a = Ok tt i1
    /\ connect i1 = Ok tt i2
    /\ collection i2 = collection json2_a
    /\ (gated json2_a = true -> reload i1 = Ok tt i1).
Proof. apply (save_then_load json2_a); reflexivity. Defined.

(* ------------------------------------------------------------------ *)
(** ** How the operations compose *)

Lemma matchesQuery_single (record : Data) (key : string) (value : Value) :
  key <> "__proto__" ->
  matchesQuery record [(key, value)] = true <-> obj_get record key = Some value.
Proof.
  intros Hk. rewrite matchesQuery_iff by (repeat constructor; exact Hk).
  unfold exact_matches.
  rewrite Forall_cons_iff. cbn. split; [tauto | auto].
Qed.

(** X18: insert then look up: on a connected instance of the YAML driver
    whose writer works, when the identifier [set] generates is not the
    [_id] of a record already stored, a [get] by that [_id] returns exactly
    the record [set] returned, and so does [getOne]. *)
Theorem set_then_get_by_id (i : Driver) (d : Data) :
  is_yaml i = true ->
  connected i = true ->
  writable (world_of i) = true ->
  let id := VStr (ids (world_of i) (drawn (world_of i))) in
  Forall (fun r => obj_get r "_id" <> Some id) (collection i) ->
  exists record i',
    set d i = Ok record i'
    /\ get [("_id", id)] i' = Ok [record] i'
    /\ getOne [("_id", id)] i' = Ok (Some record) i'.
Proof.
  intros Hy Hc Hw id Hfresh.
  assert (Hnone : filter (fun r => matchesQuery r [("_id", id)]) (collection i)
                  = []).
  { apply filter_none. eapply Forall_impl; [|exact Hfresh].
    intros r Hr. cbn beta in Hr.
    destruct (matchesQuery r [("_id", id)]) eqn:E; [|reflexivity].
    now apply matchesQuery_single in E; [|discriminate]. }
  assert (H : exists record i',
             set d i = Ok record i'
             /\ collection i' = collection i ++ [record]
             /\ obj_get record "_id" = Some id
             /\ connected i' = true /\ is_yaml i' = true).
  { subst id. clear Hfresh Hnone.
    open_state; try discriminate Hy; cbn in Hc, Hw; subst; run;
      unfold generateId, newDate, write; cbn; split_ifs;
      do 2 eexists; (split; [reflexivity|]); cbn;
      rewrite !obj_get_set; repeat split. }
  destruct H as (record & i' & E & Hcol & Hid & Hc' & Hy').
  exists record, i'. split; [exact E|].
  rewrite (get_filters i' _ Hc'), (getOne_filters i' _ Hc').
  unfold matcher_of. rewrite Hy', Hcol, filter_app, Hnone. cbn.
  apply matchesQuery_single in Hid; [|discriminate]. cbn in Hid. rewrite Hid.
  split; reflexivity.
Qed.

Lemma set_then_get_by_id_witness :
  exists record i',
    set data_with_id yaml2_a = Ok record i'
    /\ get [("_id", VStr (ids0 0))] i' = Ok [record] i'
    /\ getOne [("_id", VStr (ids0 0))] i' = Ok (Some record) i'.
Proof.
  apply (set_then_get_by_id yaml2_a data_with_id); try reflexivity.
  repeat constructor. discriminate.
Defined.

Lemma update_loop_no_match (matcher : Data -> bool)
    (merge : Data -> string -> Data) (rs : list Data) (w : World) :
  Forall (fun r => matcher r = false) rs ->
  update_loop matcher merge rs w = Ok (rs, 0) w.
Proof.
  induction 1 as [|r rs Hr _ IH]; simpl; [reflexivity|].
  rewrite Hr. unfold bind. now rewrite IH.
Qed.

Lemma filter_negb_keeps {A} (f : A -> bool) (l : list A) :
  Forall (fun x => f x = false) l -> filter (fun x => negb (f x)) l = l.
Proof.
  induction 1 as [|x l Hx _ IH]; simpl; [reflexivity|].
  now rewrite Hx, IH.
Qed.

(** X19: an [update] or a [delete] whose query matches no record returns 0
    and leaves the whole instance as it was: no record changes, the clock
    is not read and, even in autoSave mode, nothing is written. *)
Theorem no_match_no_effect (i : Driver) (query : Query) (d : Data) :
  connected i = true ->
  Forall (fun r => matcher_of i r query = false) (collection i) ->
  update query d i = Ok 0 i /\ delete query i = Ok 0 i.
Proof.
  intros Hc Hnone.
  destruct i as [s|s|s|s]; destruct s; cbn in Hc, Hnone; subst; run;
    (rewrite update_loop_no_match by exact Hnone); cbn;
    first [rewrite (filter_negb_keeps (fun r => matches r query)) by exact Hnone
          |rewrite (filter_negb_keeps (fun r => matchesQuery r query))
             by exact Hnone];
    rewrite Nat.sub_diag; cbn; split; reflexivity.
Qed.

Lemma no_match_no_effect_witness :
  update [("n", VNum 7)] patch_id json2_a = Ok 0 json2_a
  /\ delete [("n", VNum 7)] json2_a = Ok 0 json2_a.
Proof.
  apply (no_match_no_effect json2_a [("n", VNum 7)] patch_id).
  - reflexivity.
  - repeat constructor.
Defined.

(** X20: [getAllData] is not behind the gate: after [disconnect], [get]
    throws the not-connected error while [getAllData] still returns the
    records the instance held. *)
Theorem getAllData_after_disconnect (i : Driver) :
  gated i = true ->
  writable (world_of i) = true ->
  exists i',
    disconnect i = Ok tt i'
    /\ get [] i' = Throw NotConnected i'
    /\ getAllData i' = Some (collection i).
Proof.
  intros Hg Hw.
  open_state; try discriminate Hg; cbn in Hw; subst; run_more;
    unfold write; cbn; split_ifs; eexists; repeat split.
Qed.

Lemma getAllData_after_disconnect_witness :
  exists i',
    disconnect yaml1_a = Ok tt i'
    /\ get [] i' = Throw NotConnected i'
    /\ getAllData i' = Some [record_a].
Proof. apply (getAllData_after_disconnect yaml1_a); reflexivity. Defined.

(** What [set] leaves when it returns. *)
Lemma set_outcome (i : Driver) (d : Data) :
  connected i = true ->
  writable (world_of i) = true ->
  exists record i',
    set d i = Ok record i'
    /\ collection i' = collection i ++ [record]
    /\ connected i' = true
    /\ is_yaml i' = is_yaml i.
Proof.
  intros Hc Hw.
  open_state; cbn in Hc, Hw; subst; run;
    unfold generateId, newDate, write; cbn; split_ifs;
    do 2 eexists; repeat split.
Qed.

(** X21: [set] does not disturb what a query finds: after it, [get]
    returns the records it returned before, in the same order, followed by
    the new record if the new record matches. *)
Theorem set_then_get (i : Driver) (d : Data) (query : Query) :
  connected i = true ->
  writable (world_of i) = true ->
  exists before record i',
    get query i = Ok before i
    /\ set d i = Ok record i'
    /\ get query i'
       = Ok (before ++ (if matcher_of i record query then [record] else []))
            i'.
Proof.
  intros Hc Hw.
  destruct (set_outcome i d Hc Hw) as (record & i' & E & Hcol & Hc' & Hy).
  exists (filter (fun r => matcher_of i r query) (collection i)), record, i'.
  split; [now apply get_filters|]. split; [exact E|].
  rewrite (get_filters i' query Hc'). unfold matcher_of.
  rewrite Hy, Hcol, filter_app. cbn.
  now destruct (if is_yaml i then matchesQuery record query
                else matches record query).
Qed.

Lemma set_then_get_witness :
  exists before record i',
    get [("n", VNum 2)] json1_a = Ok before json1_a
    /\ set patch_id json1_a = Ok record i'
    /\ get [("n", VNum 2)] i'
       = Ok (before ++ (if matches record [("n", VNum 2)]
                        then [record] else [])) i'.
Proof. apply (set_then_get json1_a patch_id [("n", VNum 2)]); reflexivity. Defined.

(** X22: [reload] with a backing file present discards what the instance
    held in memory: a [reload] that returns leaves the same instance
    whatever the collection before it. *)
Theorem reload_discards_memory (i i' : Driver) (c : list Data) :
  file (world_of i) <> Absent ->
  reload i = Ok tt i' ->
  reload (with_collection c i) = Ok tt i'.
Proof.
  intros Hf.
  destruct i as [s|s|s|s]; destruct s;
    match goal with w : World |- _ => destruct w end;
    cbn in Hf; run_more; split_ifs; cbn; intros E;
    try discriminate E;
    match goal with
    | f : File |- _ => destruct f; try contradiction; try discriminate E
    end; exact E.
Qed.

Lemma reload_discards_memory_witness :
  exists i',
    reload (YAML1 (YAMLDriver1.mkState false [record_a] true world_legacy))
    = Ok tt i'
    /\ reload (with_collection []
                 (YAML1 (YAMLDriver1.mkState false [record_a] true
                           world_legacy)))
       = Ok tt i'
    /\ collection i' = [].
Proof.
  eexists. split; [reflexivity|]. split; [|reflexivity].
  apply (reload_discards_memory
           (YAML1 (YAMLDriver1.mkState false [record_a] true world_legacy))
           _ []).
  - discriminate.
  - reflexivity.
Defined.

(** What [update] leaves when it returns. *)
Lemma update_outcome (i : Driver) (query : Query) (patch : Data) :
  connected i = true ->
  writable (world_of i) = true ->
  exists i',
    update query patch i
    = Ok (List.length (filter (fun r => matcher_of i r query) (collection i)))
         i'
    /\ connected i' = true
    /\ is_yaml i' = is_yaml i
    /\ Forall2
         (fun r r' =>
            if matcher_of i r query
            then exists now,
                r' = (if is_yaml i then yaml_merge patch r now
                      else json_merge patch r now)
            else r' = r)
         (collection i) (collection i').
Proof.
  intros Hc Hw.
  destruct i as [s|s|s|s]; destruct s; cbn in Hc, Hw; subst; run;
    match goal with
    | |- context [update_loop ?m ?g ?rs ?w] =>
        destruct (update_loop_runs m g rs w) as (out & E & F); rewrite E
    end;
    cbn; unfold write, advance; cbn; rewrite ?Hw; cbn;
    repeat (match goal with
            | |- context [if ?b then _ else _] => destruct b
            end; cbn; rewrite ?Hw; cbn);
    eexists; (split; [reflexivity|]); cbn; repeat split;
    (eapply Forall2_impl; [|exact F]);
    intros a b; cbn; (destruct (_ a query); [|auto]);
    intros (k & _ & ->); eauto.
Qed.

Lemma updated_records_counted (m m' : Data -> bool)
    (merge : Data -> string -> Data) (old new : list Data) :
  (forall r now, wf_obj r -> m' (merge r now) = true) ->
  Forall wf_obj old ->
  Forall2
    (fun r r' => if m r then exists now, r' = merge r now else r' = r)
    old new ->
  List.length (filter m old) <= List.length (filter m' new).
Proof.
  intros Hmerge Hwf F.
  induction F as [|r r' old new Hr F IH]; [reflexivity|].
  inversion Hwf; subst. cbn.
  destruct (m r).
  - destruct Hr as (now & ->). rewrite Hmerge by assumption. cbn.
    apply le_n_S. auto.
  - subst r'. destruct (m' r); cbn; auto.
Qed.

(** X23: after an [update], a [get] by any field of the patch, other than
    the three system fields, finds every record the update changed: it
    returns at least as many records as [update] counted. *)
Theorem update_then_get (i : Driver) (query : Query) (patch : Data)
    (k : string) (v : Value) :
  connected i = true ->
  writable (world_of i) = true ->
  wf_obj patch ->
  Forall wf_obj (collection i) ->
  obj_get patch k = Some v ->
  system_field k = false ->
  wf_value v ->
  exists n i' found,
    update query patch i = Ok n i'
    /\ get [(k, v)] i' = Ok found i'
    /\ n <= List.length found.
Proof.
  intros Hc Hw Hp Hwf Hk Hsys Hv.
  destruct (update_outcome i query patch Hc Hw) as (i' & E & Hc' & Hy & F).
  eexists _, i', _. split; [exact E|].
  split; [apply (get_filters i' _ Hc')|].
  apply system_field_false in Hsys. destruct Hsys as (K1 & K2 & K3).
  assert (Kid : ~ In k ["_id"; "_createdAt"]).
  { intros [<-|[<-|[]]]; discriminate. }
  assert (Kup : k <> "_updatedAt").
  { intros ->. discriminate. }
  eapply updated_records_counted; [|exact Hwf|exact F].
  intros r now Hr. unfold matcher_of. rewrite Hy.
  destruct (is_yaml i).
  - destruct (yaml_merge_fields patch r now Hp Hr) as (_ & _ & Hother).
    apply matchesQuery_texts. repeat constructor. cbn.
    rewrite (js_get_Has _ k v); [reflexivity|].
    now rewrite (Hother k Kup Kid), Hk.
  - destruct (json_merge_fields patch r now Hp Hr) as (_ & _ & Hother).
    unfold matches. cbn.
    rewrite (js_get_Has _ k v), matches_key_refl by
      (assumption || now rewrite (Hother k Kup (fun H => H)), Hk).
    reflexivity.
Qed.

Lemma update_then_get_witness :
  exists n i' found,
    update [] patch_id yaml1_a = Ok n i'
    /\ get [("n", VNum 2)] i' = Ok found i'
    /\ n <= List.length found.
Proof.
  apply (update_then_get yaml1_a [] patch_id "n" (VNum 2));
    try reflexivity; try exact I;
    repeat constructor; simpl; intuition discriminate.
Defined.
